(** * CollapsibleColumns: a shallow embedding of
      [src/plugins/collapsibleColumns/collapsibleColumns.js]

    The plugin keeps a sparse two-level store of collapsed header
    sections ([collapsedSections]) and, on a click on a section's
    indicator, marks the section (and some of its descendants) and
    replaces the hidden-column list of the HiddenColumns plugin.

    Conventions of the embedding:
    - JavaScript numbers that the code uses as indices or colspans are
      integers of [Z]; [undefined] (and [NaN] coming from it) is [None].
    - [this.collapsedSections] is an object of arrays; both levels are
      finite maps keyed by [Z] (rows are negative numbers).
    - A call either returns ([Done]) or raises a [TypeError]
      ([Thrown]); both carry the store as the mutations performed so
      far have left it.
    - The NestedHeaders plugin, [hot.getColspanOffset] and the header
      DOM are collaborators that are not part of this source file; they
      are the fields of the read-only record [Hot]. *)

From Stdlib Require Import ZArith List Bool Lia.
From stdpp Require Import base option list gmap strings.
Import ListNotations.

Local Open Scope Z_scope.

(** ** Values and outcomes *)

(** The values a slot of [collapsedSections[row]] may hold. *)
Inductive jsval : Type :=
| JUndefined
| JBool (b : bool).

(** Result of a call that mutates a store of type [St]. [OutOfFuel] only
    marks an exhausted recursion budget of the embedding; it is shown
    below never to be produced by the top-level entry points. *)
Inductive outcome (St : Type) : Type :=
| Done (s : St)
| Thrown (s : St)
| OutOfFuel.

Arguments Done {St} s.
Arguments Thrown {St} s.
Arguments OutOfFuel {St}.

(** [state] argument of [markSectionAs]: the two literals of the
    [switch]. *)
Inductive SectionState : Type := collapsed | expanded.

(** [action] argument of [toggleCollapsedSection]. *)
Inductive ToggleAction : Type := collapse | expand.

(** ** Collaborators *)

(** One level of [nestedHeaders.colspan]: position -> colspan; a hole is
    [None]. *)
Abbreviation ColspanLevel := (list (option Z)).

(** [nestedHeaders.colspan]: one entry per header level, top level
    first; a missing level is [None]. *)
Abbreviation ColspanTable := (list (option (list (option Z)))).

(** [arr[i]] for a JavaScript array and an integer index. *)
Definition lookupZ {A : Type} (l : list A) (i : Z) : option A :=
  if i <? 0 then None else l !! Z.to_nat i.

Definition levelAt (t : ColspanTable) (k : Z) : option ColspanLevel :=
  match lookupZ t k with
  | Some (Some lvl) => Some lvl
  | _ => None
  end.

Definition colspanAt (lvl : ColspanLevel) (i : Z) : option Z :=
  match lookupZ lvl i with
  | Some (Some c) => Some c
  | _ => None
  end.

(** [v > 1] for a possibly undefined number. *)
Definition gt1 (v : option Z) : bool :=
  match v with
  | Some c => 1 <? c
  | None => false
  end.

(** The grid instance as the plugin sees it (read-only part).
    - [nestedHeaders]: [hot.getSettings().nestedHeaders] ([None] when the
      setting is absent) and inside it the [colspan] property; the
      NestedHeaders plugin's [settings] is this same object.
    - [columnHeaderLevelCount]: number of column header renderers.
    - [nestedColumnIndexToRealIndex row col],
      [realColumnIndexToNestedIndex row realIndex]: the position
      translations of the NestedHeaders plugin.
    - [getColspanOffset col headerLevel]: [hot.getColspanOffset].
    - [theadRows]: [THEAD.childNodes.length].
    The record is a snapshot: a statement about two consecutive calls
    with the same [Hot] assumes that the collaborators answer the second
    call as they answered the first. *)
Record Hot : Type := {
  nestedHeaders : option (option ColspanTable);
  columnHeaderLevelCount : Z;
  nestedColumnIndexToRealIndex : Z -> Z -> Z;
  realColumnIndexToNestedIndex : Z -> Z -> Z;
  getColspanOffset : Z -> Z -> Z;
  theadRows : Z
}.

(** [hot.getSettings().hiddenColumns], which is also the [settings] of
    the HiddenColumns plugin: absent, [true], or an object whose
    [columns] property may be undefined. *)
Inductive HiddenColumnsSetting : Type :=
| HCMissing
| HCTrue
| HCObject (columns : option (list Z)).

(** The mutable state: the plugin's own store and the hidden-columns
    setting it replaces through [updateSettings]. *)
Record Plugin : Type := {
  collapsedSections : gmap Z (gmap Z jsval);
  hiddenColumns : HiddenColumnsSetting
}.

(** A header cell (TH/TD of the THEAD): its [colspan] attribute parsed
    as a number ([None] when absent) and the index of its row among
    [THEAD.childNodes]. *)
Record HeaderCell : Type := {
  colspanAttr : option Z;
  rowIndex : Z
}.

(** Classes of [event.target]. *)
Record EventTarget : Type := {
  isCollapsibleIndicator : bool;
  hasExpandedClass : bool;
  hasCollapsedClass : bool
}.

(** ** Loops *)

(** [for (i = a; i < b; i++) body], with [n] the number of iterations. *)
Fixpoint forLoop {St : Type} (n : nat) (i : Z) (body : Z -> St -> St) (s : St) : St :=
  match n with
  | O => s
  | S n' => forLoop n' (i + 1) body (body i s)
  end.

Definition forRange {St : Type} (a b : Z) (body : Z -> St -> St) (s : St) : St :=
  forLoop (Z.to_nat (b - a)) a body s.

(** The same loop with a body that may raise. *)
Fixpoint forLoopM {St : Type} (n : nat) (i : Z) (body : Z -> St -> outcome St) (s : St)
  : outcome St :=
  match n with
  | O => Done s
  | S n' =>
    match body i s with
    | Done s' => forLoopM n' (i + 1) body s'
    | r => r
    end
  end.

(** [Array.prototype.indexOf]. *)
Fixpoint indexOf (l : list Z) (x : Z) : Z :=
  match l with
  | [] => -1
  | y :: l' =>
    if y =? x then 0
    else let k := indexOf l' x in if k =? -1 then -1 else k + 1
  end.

(** ** The section store *)

(** [if (!this.collapsedSections[row]) this.collapsedSections[row] = []] *)
Definition ensureRow (row : Z) (cs : gmap Z (gmap Z jsval)) : gmap Z (gmap Z jsval) :=
  match cs !! row with
  | Some _ => cs
  | None => <[row := ∅]> cs
  end.

(** [this.collapsedSections[row][col] = v] on an existing row. *)
Definition storeCell (row col : Z) (v : jsval) (cs : gmap Z (gmap Z jsval))
  : gmap Z (gmap Z jsval) :=
  match cs !! row with
  | Some r => <[row := <[col := v]> r]> cs
  | None => cs
  end.

(** The [switch (state)] of [markSectionAs]. *)
Definition storeState (state : SectionState) (row col : Z)
  (cs : gmap Z (gmap Z jsval)) : gmap Z (gmap Z jsval) :=
  match state with
  | collapsed => storeCell row col (JBool true) cs
  | expanded => storeCell row col JUndefined cs
  end.

(** The test of [generateIndicator]:
    [collapsedSections[row] && collapsedSections[row][col] === true]. *)
Definition isCollapsed (cs : gmap Z (gmap Z jsval)) (row col : Z) : bool :=
  match cs !! row with
  | Some r =>
    match r !! col with
    | Some (JBool true) => true
    | _ => false
    end
  | None => false
  end.

Section Plugin.

Variable hot : Hot.

(** [nestedPlugin.settings.colspan]; [None] stands for the
    [TypeError] of reading through an absent object. *)
Definition colspanSettings : option ColspanTable :=
  match nestedHeaders hot with
  | Some (Some t) => Some t
  | _ => None
  end.

(** ** [getChildHeaders] *)

(** The [for] loop of [getChildHeaders]: [i] runs from
    [childNestedColumnIndex] while [i < childNestedColumnIndex + colspan],
    and [colspan] shrinks inside the body. *)
Fixpoint childHeaderLoop (fuel : nat) (childColspanLevel : option ColspanLevel)
  (row childNestedColumnIndex i colspan : Z) (childHeaderRange : list Z) : list Z :=
  match fuel with
  | O => childHeaderRange
  | S fuel' =>
    if i <? childNestedColumnIndex + colspan then
      let colspan' :=
        match childColspanLevel with
        | Some lvl =>
          match colspanAt lvl i with
          | Some c => if 1 <? c then colspan - c else colspan
          | None => colspan
          end
        | None => colspan
        end in
      let realChildIndex := nestedColumnIndexToRealIndex hot (row + 1) i in
      let childHeaderRange' :=
        if indexOf childHeaderRange realChildIndex =? -1
        then childHeaderRange ++ [realChildIndex]
        else childHeaderRange in
      childHeaderLoop fuel' childColspanLevel row childNestedColumnIndex (i + 1)
        colspan' childHeaderRange'
    else childHeaderRange
  end.

(** [getChildHeaders(row, col, colspan)]; an undefined [colspan] makes
    the loop condition false at once. *)
Definition getChildHeaders (row col : Z) (colspan : option Z) : option (list Z) :=
  match colspanSettings with
  | None => None
  | Some settings =>
    let childColspanLevel := levelAt settings (columnHeaderLevelCount hot + row + 1) in
    let realColumnIndex := nestedColumnIndexToRealIndex hot row col in
    let childNestedColumnIndex :=
      realColumnIndexToNestedIndex hot (row + 1) realColumnIndex in
    match colspan with
    | None => Some []
    | Some c =>
      Some (childHeaderLoop (Z.to_nat c) childColspanLevel row childNestedColumnIndex
              childNestedColumnIndex c [])
    end
  end.

(** ** [markSectionAs] *)

(** [THEAD.childNodes[k]] exists. *)
Definition theadHasRow (k : Z) : bool := (0 <=? k) && (k <? theadRows hot).

(** [markSectionAs(state, row, col, TH, recursive)]. The argument [TH]
    is never read and is left out; looking up [nextTH] raises when the
    THEAD has no row [reversedIndex + 1]. [fuel] bounds the depth of the
    recursion. *)
Fixpoint markSectionAs_rec (fuel : nat) (state : SectionState) (row col : Z)
  (recursive : bool) (cs : gmap Z (gmap Z jsval)) : outcome (gmap Z (gmap Z jsval)) :=
  let cs := ensureRow row cs in
  let cs := storeState state row col cs in
  if recursive then
    match colspanSettings with
    | None => Thrown cs
    | Some nestedHeadersColspans =>
      let reversedIndex := columnHeaderLevelCount hot + row in
      match levelAt nestedHeadersColspans reversedIndex with
      | None => Thrown cs
      | Some level =>
        match getChildHeaders row col (colspanAt level col) with
        | None => Thrown cs
        | Some childHeaders =>
          forLoopM (length childHeaders - 1) 1
            (fun i cs =>
               let nestedIndex :=
                 realColumnIndexToNestedIndex hot (row + 1)
                   (nth (Z.to_nat i) childHeaders 0) in
               match levelAt nestedHeadersColspans (reversedIndex + 1) with
               | Some childLevel =>
                 if gt1 (colspanAt childLevel nestedIndex) then
                   if theadHasRow (reversedIndex + 1) then
                     match fuel with
                     | O => OutOfFuel
                     | S fuel' =>
                       markSectionAs_rec fuel' state (row + 1) nestedIndex true cs
                     end
                   else Thrown cs
                 else Done cs
               | None => Done cs
               end)
            cs
        end
      end
    end
  else Done cs.

(** The recursion descends one header level per call, so the number of
    levels of the colspan table bounds its depth. *)
Definition markFuel : nat :=
  match colspanSettings with
  | Some t => length t
  | None => O
  end.

Definition markSectionAs (state : SectionState) (row col : Z) (recursive : bool)
  (cs : gmap Z (gmap Z jsval)) : outcome (gmap Z (gmap Z jsval)) :=
  markSectionAs_rec markFuel state row col recursive cs.

(** ** [toggleCollapsedSection] *)

(** The list read at the start of [toggleCollapsedSection]: the setting
    [true] and an undefined [columns] both give the empty list. *)
Definition hiddenList (h : HiddenColumnsSetting) : list Z :=
  match h with
  | HCObject (Some l) => l
  | _ => []
  end.

(** [firstElementColspan]: 1 unless [childHeaders[1]] is truthy. *)
Definition firstElementColspan (childHeaders : list Z) : Z :=
  match childHeaders !! 1%nat with
  | Some second => if second =? 0 then 1 else second - nth 0 childHeaders 0
  | None => 1
  end.

(** The loop of the ['collapse'] case; [leftmost] is
    [coords.col + colspanOffset]. A [NaN] colspan never enters it. *)
Definition hideColumns (currentlyHiddenColumns : list Z) (leftmost first : Z)
  (headerColspan : option Z) (columnArray : list Z) : list Z :=
  match headerColspan with
  | None => columnArray
  | Some colspan =>
    forRange first colspan
      (fun i arr =>
         let colToHide := leftmost + i in
         if indexOf currentlyHiddenColumns colToHide =? -1
         then arr ++ [colToHide] else arr)
      columnArray
  end.

(** The loop of the ['expand'] case. *)
Definition showColumns (leftmost : Z) (headerColspan : option Z)
  (columnArray : list Z) : list Z :=
  match headerColspan with
  | None => columnArray
  | Some colspan =>
    forRange 1 colspan
      (fun i arr =>
         let colToHide := leftmost + i in
         let foundIndex := indexOf arr colToHide in
         if -1 <? foundIndex then delete (Z.to_nat foundIndex) arr else arr)
      columnArray
  end.

(** [previousHiddenColumnsSetting.columns = columnArray] followed by
    [updateSettings]. *)
Definition commitColumns (p : Plugin) (columnArray : list Z) : Plugin :=
  {| collapsedSections := collapsedSections p;
     hiddenColumns := HCObject (Some columnArray) |}.

(** [toggleCollapsedSection(coords, TD, action)]; the copy made by
    [deepClone] is the list itself. *)
Definition toggleCollapsedSection (row col : Z) (TD : HeaderCell)
  (action : ToggleAction) (p : Plugin) : outcome Plugin :=
  match hiddenColumns p with
  | HCMissing => Thrown p
  | settings =>
    let currentlyHiddenColumns := hiddenList settings in
    let headerLevel := theadRows hot - rowIndex TD - 1 in
    let colspanOffset := getColspanOffset hot col headerLevel in
    let headerColspan := colspanAttr TD in
    let columnArray := currentlyHiddenColumns in
    match action with
    | collapse =>
      match getChildHeaders row col headerColspan with
      | None => Thrown p
      | Some childHeaders =>
        Done (commitColumns p
                (hideColumns currentlyHiddenColumns (col + colspanOffset)
                   (firstElementColspan childHeaders) headerColspan columnArray))
      end
    | expand =>
      Done (commitColumns p (showColumns (col + colspanOffset) headerColspan columnArray))
    end
  end.

(** ** The mouse handler *)

Definition withSections (p : Plugin) (cs : gmap Z (gmap Z jsval)) : Plugin :=
  {| collapsedSections := cs; hiddenColumns := hiddenColumns p |}.

(** [markSectionAs(state, ...)] then [toggleCollapsedSection(..., action)]. *)
Definition markThenToggle (state : SectionState) (action : ToggleAction)
  (row col : Z) (TD : HeaderCell) (p : Plugin) : outcome Plugin :=
  match markSectionAs state row col true (collapsedSections p) with
  | Done cs => toggleCollapsedSection row col TD action (withSections p cs)
  | Thrown cs => Thrown (withSections p cs)
  | OutOfFuel => OutOfFuel
  end.

(** [onBeforeOnCellMouseDown(event, coords, TD)] with [coords.row],
    [coords.col] as [row], [col]; stopping the propagation of the event
    has no effect on the state and is left out. *)
Definition onBeforeOnCellMouseDown (target : EventTarget) (row col : Z)
  (TD : HeaderCell) (p : Plugin) : outcome Plugin :=
  if isCollapsibleIndicator target then
    if hasExpandedClass target then
      markThenToggle collapsed collapse row col TD
        (withSections p (ensureRow row (collapsedSections p)))
    else if hasCollapsedClass target then
      markThenToggle expanded expand row col TD p
    else Done p
  else Done p.

(** A click on an indicator drawn in its expanded state: the collapse
    transition. *)
Definition collapseSection (row col : Z) (TD : HeaderCell) (p : Plugin) : outcome Plugin :=
  onBeforeOnCellMouseDown
    {| isCollapsibleIndicator := true; hasExpandedClass := true;
       hasCollapsedClass := false |} row col TD p.

(** A click on an indicator drawn in its collapsed state: the expand
    transition. *)
Definition expandSection (row col : Z) (TD : HeaderCell) (p : Plugin) : outcome Plugin :=
  onBeforeOnCellMouseDown
    {| isCollapsibleIndicator := true; hasExpandedClass := false;
       hasCollapsedClass := true |} row col TD p.

(** ** Rendering *)

Inductive Indicator : Type := IndicatorCollapsed | IndicatorExpanded.

(** [generateIndicator(col, TH)]; [row] is the header row as a negative
    coordinate. *)
Definition generateIndicator (col : Z) (TH : HeaderCell) (p : Plugin) : Indicator :=
  let row := (-1) * theadRows hot + rowIndex TH in
  if isCollapsed (collapsedSections p) row col
  then IndicatorCollapsed else IndicatorExpanded.

(** [onAfterGetColHeader(col, TH)]: the indicator appended to the header
    cell, if any. *)
Definition onAfterGetColHeader (col : Z) (TH : HeaderCell) (p : Plugin)
  : option Indicator :=
  if gt1 (colspanAttr TH) then Some (generateIndicator col TH p) else None.

(** ** Activation *)

Definition dependencyWarning : string :=
  "You need to configure the Nested Headers plugin in order to use collapsible headers.".

(** [checkDependencies()]: the returned value ([None] for [undefined])
    and the warnings written to the console. *)
Definition checkDependencies (p : Plugin) : option bool * list string :=
  match nestedHeaders hot with
  | None => (Some false, [dependencyWarning])
  | Some _ =>
    match hiddenColumns p with
    | HCMissing => (Some false, [dependencyWarning])
    | _ => (None, [])
    end
  end.

(** [onAfterInit()]: the value of [checkDependencies] is dropped; the
    three assignments read collaborators kept in [hot]. *)
Definition onAfterInit (p : Plugin) : Plugin * list string :=
  let '(_, warnings) := checkDependencies p in (p, warnings).

End Plugin.

(** The plugin as its constructor leaves it. *)
Definition newPlugin (h : HiddenColumnsSetting) : Plugin :=
  {| collapsedSections := ∅; hiddenColumns := h |}.

(** ** A Header Span Index for concrete header layouts *)

(** Modelled from the spec: the position translations of the
    NestedHeaders plugin are not part of this source file. Following the
    spec's Header Span Index, every header cell of a level is one nested
    position, a cell with colspan [c > 1] owns [c] real columns, and the
    real index of a position is the number of real columns owned by the
    positions before it. *)
Definition widthAt (lvl : option ColspanLevel) (i : Z) : Z :=
  match lvl with
  | Some l =>
    match colspanAt l i with
    | Some c => if 1 <? c then c else 1
    | None => 1
    end
  | None => 1
  end.

(** Modelled from the spec: the real index of a nested position, the sum
    of the widths of the positions before it. *)
Definition realIndexOf (lvl : option ColspanLevel) (position : Z) : Z :=
  forRange 0 position (fun j acc => acc + widthAt lvl j) 0.

(** Modelled from the spec: the nested position whose header cell covers
    a real index, found by walking the level from [position] on, whose
    first real column is [leftmost]. *)
Fixpoint nestedIndexFrom (fuel : nat) (lvl : option ColspanLevel)
  (position leftmost realIndex : Z) : Z :=
  match fuel with
  | O => position
  | S fuel' =>
    if realIndex <? leftmost + widthAt lvl position then position
    else nestedIndexFrom fuel' lvl (position + 1) (leftmost + widthAt lvl position)
           realIndex
  end.

Definition nestedIndexOf (lvl : option ColspanLevel) (realIndex : Z) : Z :=
  nestedIndexFrom (Z.to_nat realIndex) lvl 0 0 realIndex.

(** Modelled from the spec: a grid whose header has [levels] rows laid
    out by the colspan table [t], with one THEAD row per level. The
    column offset is 0: in the layouts below no header that spans
    several columns, and no hidden column, precedes a toggled section at
    its level. *)
Definition layoutHot (levels : Z) (t : ColspanTable) : Hot :=
  {| nestedHeaders := Some (Some t);
     columnHeaderLevelCount := levels;
     nestedColumnIndexToRealIndex :=
       fun row col => realIndexOf (levelAt t (levels + row)) col;
     realColumnIndexToNestedIndex :=
       fun row realIndex => nestedIndexOf (levelAt t (levels + row)) realIndex;
     getColspanOffset := fun _ _ => 0;
     theadRows := levels |}.

(** The cascade scenario: level 0 has one header over real columns
    0..3; level 1 has headers at real columns 0 and 1 and a merged header
    over real columns 2..3. *)
Definition cascadeHot : Hot :=
  layoutHot 2 [Some [Some 4]; Some [Some 1; Some 1; Some 2]].

(** The cascade scenario for an arbitrary grid: two header rows; the
    top section at position 0 has colspan 4 and starts at real column 0;
    the second level has headers of colspan 1, 1, 2 at nested positions
    0, 1, 2, which are the real columns 0, 1, 2; no column offset applies
    to the top section. Nothing is said of the translations below the
    header. *)
Definition cascadeLayout (hot : Hot) : Prop :=
  colspanSettings hot = Some [Some [Some 4]; Some [Some 1; Some 1; Some 2]]
  /\ columnHeaderLevelCount hot = 2
  /\ theadRows hot = 2
  /\ nestedColumnIndexToRealIndex hot (-2) 0 = 0
  /\ realColumnIndexToNestedIndex hot (-1) 0 = 0
  /\ nestedColumnIndexToRealIndex hot (-1) 0 = 0
  /\ nestedColumnIndexToRealIndex hot (-1) 1 = 1
  /\ nestedColumnIndexToRealIndex hot (-1) 2 = 2
  /\ realColumnIndexToNestedIndex hot (-1) 1 = 1
  /\ realColumnIndexToNestedIndex hot (-1) 2 = 2
  /\ getColspanOffset hot 0 1 = 0.

(** The same parent over a merged header (real columns 0..1) followed by
    two single headers (real columns 2 and 3). *)
Definition mergedFirstHot : Hot :=
  layoutHot 2 [Some [Some 4]; Some [Some 2; Some 1; Some 1]].

(** A parent whose only child spans the same four real columns. *)
Definition singleChildHot : Hot :=
  layoutHot 2 [Some [Some 4]; Some [Some 4]].

(** A top header of colspan 2 over two headers of a single column. *)
Definition pairHot : Hot :=
  layoutHot 2 [Some [Some 2]; Some [Some 1; Some 1]].

(** A header of two rows whose colspan table only describes the top
    row: the record of the second level is missing. *)
Definition topOnlyHot : Hot := layoutHot 2 [Some [Some 2]].

(** The top-level header cell of these layouts: colspan 4, first row of
    the THEAD. *)
Definition topCell : HeaderCell := {| colspanAttr := Some 4; rowIndex := 0 |}.

(** The merged header cell of the second level of [cascadeHot]: colspan
    2, second row of the THEAD. *)
Definition mergedCell : HeaderCell := {| colspanAttr := Some 2; rowIndex := 1 |}.

(** ** Auxiliary definitions used by the statements *)

(** What holds of the store an outcome carries. *)
Definition outcomeAll {St : Type} (P : St -> Prop) (o : outcome St) : Prop :=
  match o with
  | Done s | Thrown s => P s
  | OutOfFuel => True
  end.

(** The call ended, normally or by an exception, with store [s]. *)
Definition endsWith {St : Type} (o : outcome St) (s : St) : Prop :=
  o = Done s \/ o = Thrown s.

Definition outcomeMap {A B : Type} (f : A -> B) (o : outcome A) : outcome B :=
  match o with
  | Done a => Done (f a)
  | Thrown a => Thrown (f a)
  | OutOfFuel => OutOfFuel
  end.

Definition stateValue (state : SectionState) : jsval :=
  match state with
  | collapsed => JBool true
  | expanded => JUndefined
  end.

(** The two writes every call of [markSectionAs] starts with. *)
Definition markKey (state : SectionState) (k : Z * Z)
  (cs : gmap Z (gmap Z jsval)) : gmap Z (gmap Z jsval) :=
  storeState state k.1 k.2 (ensureRow k.1 cs).

Definition applyKeys (state : SectionState) (keys : list (Z * Z))
  (cs : gmap Z (gmap Z jsval)) : gmap Z (gmap Z jsval) :=
  fold_left (fun cs k => markKey state k cs) keys cs.

(** The slot [(k.1, k.2)] exists and holds the value of [state]. *)
Definition holds (state : SectionState) (cs : gmap Z (gmap Z jsval)) (k : Z * Z) : Prop :=
  exists r, cs !! k.1 = Some r /\ r !! k.2 = Some (stateValue state).

(** The content of the slot [collapsedSections[row][col]], if both the
    row and the slot exist. *)
Definition slot (cs : gmap Z (gmap Z jsval)) (row col : Z) : option jsval :=
  match cs !! row with
  | Some r => r !! col
  | None => None
  end.

(** No slot holds a boolean other than [true]. *)
Definition neverFalse (cs : gmap Z (gmap Z jsval)) : Prop :=
  forall row col, slot cs row col <> Some (JBool false).

(** Removal of a slot, the alternative to storing [undefined] in it. *)
Definition removeCell (row col : Z) (cs : gmap Z (gmap Z jsval))
  : gmap Z (gmap Z jsval) :=
  match cs !! row with
  | Some r => <[row := delete col r]> cs
  | None => cs
  end.

(** Sequential marking of a list of positions, stopping at the first
    exception. *)
Fixpoint markEach (mark : Z -> gmap Z (gmap Z jsval) -> outcome (gmap Z (gmap Z jsval)))
  (positions : list Z) (cs : gmap Z (gmap Z jsval)) : outcome (gmap Z (gmap Z jsval)) :=
  match positions with
  | [] => Done cs
  | position :: rest =>
    match mark position cs with
    | Done cs' => markEach mark rest cs'
    | r => r
    end
  end.

Section Ghost.

Variable hot : Hot.

(** The sections written by [markSectionAs(state, row, col, TH,
    recursive)], in the order of the writes: the recursion of
    [markSectionAs_rec] with the store replaced by the list of the keys
    written so far. Which sections are written depends neither on the
    store nor on [state]. *)
Fixpoint markedSections_rec (fuel : nat) (row col : Z) (recursive : bool)
  (written : list (Z * Z)) : outcome (list (Z * Z)) :=
  let written := written ++ [(row, col)] in
  if recursive then
    match colspanSettings hot with
    | None => Thrown written
    | Some nestedHeadersColspans =>
      let reversedIndex := columnHeaderLevelCount hot + row in
      match levelAt nestedHeadersColspans reversedIndex with
      | None => Thrown written
      | Some level =>
        match getChildHeaders hot row col (colspanAt level col) with
        | None => Thrown written
        | Some childHeaders =>
          forLoopM (length childHeaders - 1) 1
            (fun i written =>
               let nestedIndex :=
                 realColumnIndexToNestedIndex hot (row + 1)
                   (nth (Z.to_nat i) childHeaders 0) in
               match levelAt nestedHeadersColspans (reversedIndex + 1) with
               | Some childLevel =>
                 if gt1 (colspanAt childLevel nestedIndex) then
                   if theadHasRow hot (reversedIndex + 1) then
                     match fuel with
                     | O => OutOfFuel
                     | S fuel' =>
                       markedSections_rec fuel' (row + 1) nestedIndex true written
                     end
                   else Thrown written
                 else Done written
               | None => Done written
               end)
            written
        end
      end
    end
  else Done written.

(** The section [(row, col)] followed by the descendant sections that a
    recursive marking of it writes. *)
Definition markedSections (row col : Z) : list (Z * Z) :=
  match markedSections_rec (markFuel hot) row col true [] with
  | Done written | Thrown written => written
  | OutOfFuel => []
  end.

(** The children rule of the recursive marking in the words of the
    spec: of the immediate children [childHeaders] of a section of
    [row], those beyond the first, translated to nested positions of the
    child level, that span more than one column there. *)
Definition childrenToMark (row : Z) (childHeaders : list Z) : list Z :=
  match colspanSettings hot with
  | Some t =>
    match levelAt t (columnHeaderLevelCount hot + row + 1) with
    | Some childLevel =>
      filter (fun nestedIndex => gt1 (colspanAt childLevel nestedIndex) = true)
        (map (realColumnIndexToNestedIndex hot (row + 1)) (tail childHeaders))
    | None => []
    end
  | None => []
  end.

End Ghost.

(** The section [k] lies on a header level that has a colspan record, in
    which it spans more than one column. *)
Definition spans (hot : Hot) (k : Z * Z) : Prop :=
  exists t lvl,
    colspanSettings hot = Some t
    /\ levelAt t (columnHeaderLevelCount hot + k.1) = Some lvl
    /\ gt1 (colspanAt lvl k.2) = true.

(** States of the plugin that calls of its methods can produce from a
    freshly constructed plugin, whatever grid each call sees. *)
Inductive reachable : Plugin -> Prop :=
| reachable_new (h : HiddenColumnsSetting) : reachable (newPlugin h)
| reachable_mark (hot : Hot) (state : SectionState) (row col : Z) (recursive : bool)
    (p : Plugin) (cs : gmap Z (gmap Z jsval)) :
    reachable p ->
    endsWith (markSectionAs hot state row col recursive (collapsedSections p)) cs ->
    reachable (withSections p cs)
| reachable_toggle (hot : Hot) (row col : Z) (TD : HeaderCell) (action : ToggleAction)
    (p p' : Plugin) :
    reachable p ->
    endsWith (toggleCollapsedSection hot row col TD action p) p' ->
    reachable p'
| reachable_click (hot : Hot) (target : EventTarget) (row col : Z) (TD : HeaderCell)
    (p p' : Plugin) :
    reachable p ->
    endsWith (onBeforeOnCellMouseDown hot target row col TD p) p' ->
    reachable p'.


(** * Properties *)

(** ** Lists and loops *)

Lemma indexOf_lower (l : list Z) (x : Z) : -1 <= indexOf l x.
Proof.
  induction l as [|y l IH]; simpl; [lia|].
  destruct (y =? x); [lia|].
  destruct (indexOf l x =? -1) eqn:E; lia.
Qed.

Lemma indexOf_absent (l : list Z) (x : Z) : indexOf l x = -1 <-> x ∉ l.
Proof.
  induction l as [|y l IH]; simpl.
  - split; [intros _; apply not_elem_of_nil | done].
  - pose proof (indexOf_lower l x) as Hlow.
    destruct (Z.eqb_spec y x) as [->|Hne].
    + split; [lia | intros H; exfalso; apply H; left].
    + destruct (Z.eqb_spec (indexOf l x) (-1)) as [E|E].
      * split; [|done]. intros _ Hin.
        apply elem_of_cons in Hin as [->|Hin]; [done|]. by apply IH.
      * split; [lia|]. intros Hnot. exfalso. apply E, IH.
        intros Hin. apply Hnot. by right.
Qed.

Lemma indexOf_present (l : list Z) (x : Z) : x ∈ l -> -1 < indexOf l x.
Proof.
  intros Hin. pose proof (indexOf_lower l x).
  destruct (Z.eq_dec (indexOf l x) (-1)) as [E|E]; [|lia].
  by apply indexOf_absent in E.
Qed.

Lemma indexOf_app_fresh (l r : list Z) (x : Z) :
  x ∉ l -> indexOf (l ++ x :: r) x = Z.of_nat (length l).
Proof.
  induction l as [|y l IH]; simpl; intros Hnot.
  - by rewrite Z.eqb_refl.
  - apply not_elem_of_cons in Hnot as [Hne Hnot].
    destruct (Z.eqb_spec y x) as [->|_]; [done|].
    rewrite IH by done.
    destruct (Z.eqb_spec (Z.of_nat (length l)) (-1)); lia.
Qed.

Lemma delete_middle (l r : list Z) (x : Z) : delete (length l) (l ++ x :: r) = l ++ r.
Proof. induction l as [|y l IH]; simpl; [done | by rewrite IH]. Qed.

Lemma filter_keeps_all {A : Type} (P : A -> Prop) `{forall x, Decision (P x)} (l : list A) :
  Forall P l -> filter P l = l.
Proof.
  induction 1 as [|x l Hx _ IH]; [done|].
  by rewrite filter_cons_True, IH.
Qed.

Lemma filter_drops_all {A : Type} (P : A -> Prop) `{forall x, Decision (P x)} (l : list A) :
  Forall (fun x => ~ P x) l -> filter P l = [].
Proof.
  induction 1 as [|x l Hx _ IH]; [done|].
  by rewrite filter_cons_False.
Qed.

(** Removing the first occurrence, as [indexOf] and [splice] do it, is a
    filter on a list without duplicates. *)
Lemma splice_first_NoDup (l : list Z) (x : Z) :
  NoDup l ->
  (if -1 <? indexOf l x then delete (Z.to_nat (indexOf l x)) l else l)
  = filter (fun c => c <> x) l.
Proof.
  induction l as [|y l IH]; intros Hnd; [done|].
  apply NoDup_cons in Hnd as [Hy Hnd]. specialize (IH Hnd).
  simpl. destruct (Z.eqb_spec y x) as [->|Hne].
  - simpl. rewrite filter_cons_False by (intros H; by apply H).
    symmetry. apply filter_keeps_all, Forall_forall.
    intros c Hc ->. by apply Hy.
  - rewrite filter_cons_True by done.
    pose proof (indexOf_lower l x) as Hlow.
    destruct (Z.eqb_spec (indexOf l x) (-1)) as [E|E].
    + rewrite E in IH. simpl in IH. simpl. by rewrite <- IH.
    + destruct (Z.ltb_spec (-1) (indexOf l x)) as [Hlt|]; [|lia].
      destruct (Z.ltb_spec (-1) (indexOf l x + 1)) as [_|]; [|lia].
      replace (Z.to_nat (indexOf l x + 1)) with (S (Z.to_nat (indexOf l x))) by lia.
      simpl. by rewrite IH.
Qed.

Lemma forLoopM_ext {St : Type} (f g : Z -> St -> outcome St) (n : nat) (i : Z) (s : St) :
  (forall j t, f j t = g j t) -> forLoopM n i f s = forLoopM n i g s.
Proof.
  intros Hfg. revert i s.
  induction n as [|n IH]; intros i s; simpl; [done|].
  rewrite Hfg. destruct (g i s); auto.
Qed.

Lemma forLoopM_all {St : Type} (P : St -> Prop) (f : Z -> St -> outcome St)
  (n : nat) (i : Z) (s : St) :
  (forall j t, P t -> outcomeAll P (f j t)) -> P s -> outcomeAll P (forLoopM n i f s).
Proof.
  intros Hf. revert i s.
  induction n as [|n IH]; intros i s Hs; simpl; [done|].
  specialize (Hf i s Hs). destruct (f i s); simpl in *; auto.
Qed.

Lemma forLoopM_done {St : Type} (f : Z -> St -> outcome St) (n : nat) (i : Z) (s : St) :
  (forall j t, exists t', f j t = Done t') -> exists s', forLoopM n i f s = Done s'.
Proof.
  intros Hf. revert i s.
  induction n as [|n IH]; intros i s; simpl; [by eexists|].
  destruct (Hf i s) as [t' ->]. apply IH.
Qed.

Lemma forLoopM_fuelled {St : Type} (f : Z -> St -> outcome St) (n : nat) (i : Z) (s : St) :
  (forall j t, f j t <> OutOfFuel) -> forLoopM n i f s <> OutOfFuel.
Proof.
  intros Hf. revert i s.
  induction n as [|n IH]; intros i s; simpl; [done|].
  specialize (Hf i s). destruct (f i s); auto.
Qed.

Lemma forLoopM_sim {A B : Type} (R : B -> A) (f : Z -> A -> outcome A)
  (g : Z -> B -> outcome B) (n : nat) (i : Z) (s : B) :
  (forall j t, f j (R t) = outcomeMap R (g j t)) ->
  forLoopM n i f (R s) = outcomeMap R (forLoopM n i g s).
Proof.
  intros Hfg. revert i s.
  induction n as [|n IH]; intros i s; simpl; [done|].
  rewrite Hfg. destruct (g i s); simpl; auto.
Qed.

(** ** The section store *)

Lemma storeState_value (state : SectionState) (row col : Z) (cs : gmap Z (gmap Z jsval)) :
  storeState state row col cs = storeCell row col (stateValue state) cs.
Proof. by destruct state. Qed.

Lemma ensureRow_lookup (row r : Z) (cs : gmap Z (gmap Z jsval)) :
  ensureRow row cs !! r = if decide (r = row) then Some (default ∅ (cs !! row)) else cs !! r.
Proof.
  unfold ensureRow. destruct (cs !! row) eqn:E; case_decide; subst; simpl; try done.
  - by rewrite lookup_insert_eq.
  - by rewrite lookup_insert_ne.
Qed.

Lemma ensureRow_present (row : Z) (cs : gmap Z (gmap Z jsval)) :
  is_Some (cs !! row) -> ensureRow row cs = cs.
Proof. intros [r Hr]. unfold ensureRow. by rewrite Hr. Qed.

Lemma isCollapsed_ensureRow (row r c : Z) (cs : gmap Z (gmap Z jsval)) :
  isCollapsed (ensureRow row cs) r c = isCollapsed cs r c.
Proof.
  unfold isCollapsed. rewrite ensureRow_lookup.
  case_decide; subst; [|done]. by destruct (cs !! row).
Qed.

Lemma markKey_lookup (state : SectionState) (k : Z * Z) (r : Z)
  (cs : gmap Z (gmap Z jsval)) :
  markKey state k cs !! r
  = if decide (r = k.1)
    then Some (<[k.2 := stateValue state]> (default ∅ (cs !! k.1)))
    else cs !! r.
Proof.
  unfold markKey. rewrite storeState_value. unfold storeCell.
  rewrite ensureRow_lookup. rewrite decide_True by done.
  case_decide; subst.
  - by rewrite lookup_insert_eq.
  - rewrite lookup_insert_ne by done. rewrite ensureRow_lookup.
    by rewrite decide_False.
Qed.

Lemma isCollapsed_markKey (state : SectionState) (k : Z * Z) (r c : Z)
  (cs : gmap Z (gmap Z jsval)) :
  isCollapsed (markKey state k cs) r c
  = if decide ((r, c) = k)
    then match state with collapsed => true | expanded => false end
    else isCollapsed cs r c.
Proof.
  unfold isCollapsed. rewrite markKey_lookup. destruct k as [kr kc]; simpl.
  destruct (decide (r = kr)) as [->|Hr].
  - destruct (decide (c = kc)) as [->|Hc].
    + rewrite decide_True by done. rewrite lookup_insert_eq. by destruct state.
    + rewrite decide_False by congruence. rewrite lookup_insert_ne by done.
      by destruct (cs !! kr).
  - by rewrite decide_False by congruence.
Qed.

Lemma isCollapsed_applyKeys (state : SectionState) (keys : list (Z * Z)) (r c : Z)
  (cs : gmap Z (gmap Z jsval)) :
  isCollapsed (applyKeys state keys cs) r c
  = if decide ((r, c) ∈ keys)
    then match state with collapsed => true | expanded => false end
    else isCollapsed cs r c.
Proof.
  induction keys as [|k keys IH] using rev_ind.
  - rewrite decide_False; [done | apply not_elem_of_nil].
  - unfold applyKeys in *. rewrite fold_left_app. simpl.
    rewrite isCollapsed_markKey, IH.
    destruct (decide ((r, c) = k)) as [<-|Hk].
    + rewrite decide_True; [done|]. apply elem_of_app. right. left.
    + destruct (decide ((r, c) ∈ keys)) as [Hin|Hin].
      * rewrite decide_True; [done|]. apply elem_of_app. by left.
      * rewrite decide_False; [done|]. intros Hin'.
        apply elem_of_app in Hin' as [?|Hin']; [done|].
        apply list_elem_of_singleton in Hin'. done.
Qed.

Lemma markKey_holds (state : SectionState) (k : Z * Z) (cs : gmap Z (gmap Z jsval)) :
  holds state (markKey state k cs) k.
Proof.
  unfold holds. rewrite markKey_lookup, decide_True by done.
  eexists. split; [done|]. by rewrite lookup_insert_eq.
Qed.

Lemma markKey_holds_other (state : SectionState) (k k' : Z * Z)
  (cs : gmap Z (gmap Z jsval)) :
  holds state cs k' -> holds state (markKey state k cs) k'.
Proof.
  intros (r & Hr & Hc). unfold holds. rewrite markKey_lookup.
  case_decide as E; [|by eexists].
  eexists. split; [done|]. rewrite <- E, Hr. simpl.
  destruct (decide (k.2 = k'.2)) as [->|Hne].
  - by rewrite lookup_insert_eq.
  - by rewrite lookup_insert_ne.
Qed.

Lemma markKey_absorb (state : SectionState) (k : Z * Z) (cs : gmap Z (gmap Z jsval)) :
  holds state cs k -> markKey state k cs = cs.
Proof.
  intros (r & Hr & Hc). apply map_eq. intros i.
  rewrite markKey_lookup. case_decide; subst; [|done].
  rewrite Hr. simpl. by rewrite insert_id.
Qed.

Lemma applyKeys_snoc (state : SectionState) (keys : list (Z * Z)) (k : Z * Z)
  (cs : gmap Z (gmap Z jsval)) :
  applyKeys state (keys ++ [k]) cs = markKey state k (applyKeys state keys cs).
Proof. unfold applyKeys. by rewrite fold_left_app. Qed.

Lemma applyKeys_holds (state : SectionState) (keys : list (Z * Z))
  (cs : gmap Z (gmap Z jsval)) (k : Z * Z) :
  k ∈ keys \/ holds state cs k -> holds state (applyKeys state keys cs) k.
Proof.
  induction keys as [|k' keys IH] using rev_ind; intros H.
  - destruct H as [H|H]; [by apply not_elem_of_nil in H | done].
  - rewrite applyKeys_snoc.
    destruct H as [H|H].
    + apply elem_of_app in H as [H|H].
      * apply markKey_holds_other, IH. by left.
      * apply list_elem_of_singleton in H as ->. apply markKey_holds.
    + apply markKey_holds_other, IH. by right.
Qed.

Lemma applyKeys_absorb (state : SectionState) (keys : list (Z * Z))
  (cs : gmap Z (gmap Z jsval)) :
  (forall k, k ∈ keys -> holds state cs k) -> applyKeys state keys cs = cs.
Proof.
  induction keys as [|k' keys IH] using rev_ind; intros H; [done|].
  rewrite applyKeys_snoc, IH.
  - apply markKey_absorb, H, elem_of_app. right. left.
  - intros k Hk. apply H, elem_of_app. by left.
Qed.

(** ** [markSectionAs]: writes, fuel, exceptions *)

Lemma lookupZ_Some_range {A : Type} (l : list A) (k : Z) (x : A) :
  lookupZ l k = Some x -> 0 <= k < Z.of_nat (length l).
Proof.
  unfold lookupZ. destruct (Z.ltb_spec k 0); [done|].
  intros Hl%lookup_lt_Some. lia.
Qed.

Lemma levelAt_Some_range (t : ColspanTable) (k : Z) (lvl : ColspanLevel) :
  levelAt t k = Some lvl -> 0 <= k < Z.of_nat (length t).
Proof.
  unfold levelAt. destruct (lookupZ t k) as [[l|]|] eqn:E; try done.
  intros _. by apply lookupZ_Some_range in E.
Qed.

Section MarkFacts.

Variable hot : Hot.

(** The store after a marking is the store before it with the marked
    sections written, one after the other. *)
Lemma markSectionAs_rec_sim (fuel : nat) (state : SectionState) (row col : Z)
  (recursive : bool) (written : list (Z * Z)) (cs0 : gmap Z (gmap Z jsval)) :
  markSectionAs_rec hot fuel state row col recursive (applyKeys state written cs0)
  = outcomeMap (fun w => applyKeys state w cs0)
      (markedSections_rec hot fuel row col recursive written).
Proof.
  revert row col recursive written.
  induction fuel as [|fuel IH]; intros row col recursive written;
    cbn [markSectionAs_rec markedSections_rec];
    change (storeState state row col (ensureRow row (applyKeys state written cs0)))
      with (markKey state (row, col) (applyKeys state written cs0));
    rewrite <- applyKeys_snoc;
    (destruct recursive; [|done]);
    (destruct (colspanSettings hot) as [t|]; [|done]);
    (destruct (levelAt t (columnHeaderLevelCount hot + row)) as [level|]; [|done]);
    (destruct (getChildHeaders hot row col (colspanAt level col)) as [childHeaders|];
       [|done]);
    apply (forLoopM_sim (fun w => applyKeys state w cs0));
    intros j w;
    (destruct (levelAt t (columnHeaderLevelCount hot + row + 1)) as [childLevel|];
       [|done]);
    (destruct (gt1 _); [|done]);
    (destruct (theadHasRow hot _); [|done]).
  - done.
  - apply IH.
Qed.

Lemma markSectionAs_sim (state : SectionState) (row col : Z) (recursive : bool)
  (cs : gmap Z (gmap Z jsval)) :
  markSectionAs hot state row col recursive cs
  = outcomeMap (fun w => applyKeys state w cs)
      (markedSections_rec hot (markFuel hot) row col recursive []).
Proof. apply (markSectionAs_rec_sim _ state row col recursive [] cs). Qed.

(** A property of the store that every single write from row [row0]
    downwards keeps is kept by a marking that starts at or below
    [row0]. *)
Lemma markSectionAs_rec_all (P : gmap Z (gmap Z jsval) -> Prop) (state : SectionState)
  (row0 : Z) (fuel : nat) :
  (forall r c cs, row0 <= r -> P cs -> P (markKey state (r, c) cs)) ->
  forall row col recursive cs,
    row0 <= row -> P cs ->
    outcomeAll P (markSectionAs_rec hot fuel state row col recursive cs).
Proof.
  intros Hkey.
  induction fuel as [|fuel IH]; intros row col recursive cs Hrow Hcs;
    cbn [markSectionAs_rec];
    change (storeState state row col (ensureRow row cs))
      with (markKey state (row, col) cs);
    specialize (Hkey row col cs Hrow Hcs);
    (destruct recursive; [|done]);
    (destruct (colspanSettings hot) as [t|]; [|done]);
    (destruct (levelAt t (columnHeaderLevelCount hot + row)) as [level|]; [|done]);
    (destruct (getChildHeaders hot row col (colspanAt level col)) as [childHeaders|];
       [|done]);
    (apply forLoopM_all; [|done]);
    intros j w Hw;
    (destruct (levelAt t (columnHeaderLevelCount hot + row + 1)) as [childLevel|];
       [|done]);
    (destruct (gt1 _); [|done]);
    (destruct (theadHasRow hot _); [|done]).
  - done.
  - apply IH; [lia | done].
Qed.

(** The result does not depend on the recursion budget once it covers
    the header levels below the section. *)
Lemma markSectionAs_rec_fuel (fuel1 fuel2 : nat) (state : SectionState) (row col : Z)
  (recursive : bool) (cs : gmap Z (gmap Z jsval)) :
  Z.of_nat (markFuel hot) - (columnHeaderLevelCount hot + row) <= Z.of_nat fuel1 ->
  Z.of_nat (markFuel hot) - (columnHeaderLevelCount hot + row) <= Z.of_nat fuel2 ->
  markSectionAs_rec hot fuel1 state row col recursive cs
  = markSectionAs_rec hot fuel2 state row col recursive cs.
Proof.
  revert fuel2 row col recursive cs.
  induction fuel1 as [|fuel1 IH]; intros [|fuel2] row col recursive cs H1 H2;
    cbn [markSectionAs_rec]; try done;
    (destruct recursive; [|done]);
    unfold markFuel in *;
    (destruct (colspanSettings hot) as [t|] eqn:Et; [|done]);
    (destruct (levelAt t (columnHeaderLevelCount hot + row)) as [level|]; [|done]);
    (destruct (getChildHeaders hot row col (colspanAt level col)) as [childHeaders|];
       [|done]);
    apply forLoopM_ext; intros j w;
    (destruct (levelAt t (columnHeaderLevelCount hot + row + 1)) as [childLevel|] eqn:Ec;
       [|done]);
    apply levelAt_Some_range in Ec;
    (destruct (gt1 _); [|done]);
    (destruct (theadHasRow hot _); [|done]);
    try lia.
  apply IH; lia.
Qed.

(** The budget of the top-level entry point is never exhausted. *)
Lemma markSectionAs_rec_fuelled (fuel : nat) (state : SectionState) (row col : Z)
  (recursive : bool) (cs : gmap Z (gmap Z jsval)) :
  Z.of_nat (markFuel hot) - (columnHeaderLevelCount hot + row) <= Z.of_nat fuel
  \/ columnHeaderLevelCount hot + row < 0 ->
  markSectionAs_rec hot fuel state row col recursive cs <> OutOfFuel.
Proof.
  revert row col recursive cs.
  induction fuel as [|fuel IH]; intros row col recursive cs H;
    cbn [markSectionAs_rec];
    (destruct recursive; [|done]);
    unfold markFuel in *;
    (destruct (colspanSettings hot) as [t|] eqn:Et; [|done]);
    (destruct (levelAt t (columnHeaderLevelCount hot + row)) as [level|] eqn:El;
       [|done]);
    apply levelAt_Some_range in El;
    (destruct (getChildHeaders hot row col (colspanAt level col)) as [childHeaders|];
       [|done]);
    apply forLoopM_fuelled; intros j w;
    (destruct (levelAt t (columnHeaderLevelCount hot + row + 1)) as [childLevel|] eqn:Ec;
       [|done]);
    apply levelAt_Some_range in Ec;
    (destruct (gt1 _); [|done]);
    (destruct (theadHasRow hot _); [|done]).
  - lia.
  - apply IH. lia.
Qed.

Lemma markSectionAs_total (state : SectionState) (row col : Z) (recursive : bool)
  (cs : gmap Z (gmap Z jsval)) :
  exists cs', endsWith (markSectionAs hot state row col recursive cs) cs'.
Proof.
  unfold markSectionAs, endsWith.
  pose proof (markSectionAs_rec_fuelled (markFuel hot) state row col recursive cs) as H.
  destruct (markSectionAs_rec hot (markFuel hot) state row col recursive cs)
    as [cs'|cs'|]; [eauto | eauto |].
  exfalso. apply H; [|done]. lia.
Qed.

End MarkFacts.

Lemma outcomeAll_impl {St : Type} (P Q : St -> Prop) (o : outcome St) :
  (forall s, P s -> Q s) -> outcomeAll P o -> outcomeAll Q o.
Proof. intros HPQ. destruct o; simpl; auto. Qed.

Lemma outcomeAll_endsWith {St : Type} (P : St -> Prop) (o : outcome St) (s : St) :
  outcomeAll P o -> endsWith o s -> P s.
Proof. intros HP [-> | ->]; exact HP. Qed.

Section TraceFacts.

Variable hot : Hot.

(** Keys once written stay in the list, and the section itself is
    written. *)
Lemma markedSections_rec_grows (fuel : nat) (row col : Z) (recursive : bool)
  (written : list (Z * Z)) :
  outcomeAll (fun w => forall k, k ∈ written ++ [(row, col)] -> k ∈ w)
    (markedSections_rec hot fuel row col recursive written).
Proof.
  revert row col recursive written.
  induction fuel as [|fuel IH]; intros row col recursive written;
    cbn [markedSections_rec];
    (destruct recursive; [|simpl; auto]);
    (destruct (colspanSettings hot) as [t|]; [|simpl; auto]);
    (destruct (levelAt t (columnHeaderLevelCount hot + row)) as [level|];
       [|simpl; auto]);
    (destruct (getChildHeaders hot row col (colspanAt level col)) as [childHeaders|];
       [|simpl; auto]);
    (apply forLoopM_all; [|auto]);
    intros j w Hw;
    (destruct (levelAt t (columnHeaderLevelCount hot + row + 1)) as [childLevel|];
       [|simpl; auto]);
    (destruct (gt1 _); [|simpl; auto]);
    (destruct (theadHasRow hot _); [|simpl; auto]).
  - done.
  - eapply outcomeAll_impl; [|apply IH].
    intros w' Hw' k Hk. apply Hw', elem_of_app. left. by apply Hw.
Qed.

Lemma markedSections_self (row col : Z) (cs' : gmap Z (gmap Z jsval))
  (state : SectionState) (recursive : bool) (cs : gmap Z (gmap Z jsval)) :
  endsWith (markSectionAs hot state row col recursive cs) cs' ->
  holds state cs' (row, col).
Proof.
  rewrite markSectionAs_sim.
  pose proof (markedSections_rec_grows (markFuel hot) row col recursive []) as Hg.
  intros [H|H];
    destruct (markedSections_rec hot (markFuel hot) row col recursive [])
      as [w|w|]; simpl in *; try done; inversion H; subst;
    apply applyKeys_holds; left; apply Hg; left.
Qed.

End TraceFacts.

(** ** The cascade scenario *)

(** The layout of [cascadeHot]: the children of the top section sit at
    nested positions 0, 1, 2 of the second level, at real columns 0, 1
    and 2, and the last of them spans two columns. *)
Lemma cascadeHot_layout :
  nestedColumnIndexToRealIndex cascadeHot (-2) 0 = 0
  /\ map (nestedColumnIndexToRealIndex cascadeHot (-1)) [0; 1; 2] = [0; 1; 2]
  /\ map (realColumnIndexToNestedIndex cascadeHot (-1)) [0; 1; 2; 3] = [0; 1; 2; 2]
  /\ getChildHeaders cascadeHot (-2) 0 (Some 4) = Some [0; 1; 2].
Proof. vm_compute. auto. Qed.

(** ** [getChildHeaders] *)

Lemma childHeaderLoop_NoDup (hot : Hot) (fuel : nat) (lvl : option ColspanLevel)
  (row start i colspan : Z) (range : list Z) :
  NoDup range -> NoDup (childHeaderLoop hot fuel lvl row start i colspan range).
Proof.
  revert i colspan range.
  induction fuel as [|fuel IH]; intros i colspan range Hnd; simpl; [done|].
  destruct (i <? start + colspan); [|done].
  apply IH.
  destruct (Z.eqb_spec (indexOf range (nestedColumnIndexToRealIndex hot (row + 1) i)) (-1))
    as [E|E]; [|done].
  apply indexOf_absent in E.
  apply NoDup_app. split; [done|]. split.
  - intros x Hx Hx'. apply list_elem_of_singleton in Hx' as ->. done.
  - apply NoDup_singleton.
Qed.

(** No real index is returned twice. *)
Lemma getChildHeaders_NoDup (hot : Hot) (row col : Z) (colspan : option Z)
  (childHeaders : list Z) :
  getChildHeaders hot row col colspan = Some childHeaders -> NoDup childHeaders.
Proof.
  unfold getChildHeaders.
  destruct (colspanSettings hot); [|done].
  destruct colspan; intros [= <-].
  - apply childHeaderLoop_NoDup, NoDup_nil_2.
  - apply NoDup_nil_2.
Qed.

(** The loop stops by itself within the budget it is given: more fuel
    changes nothing. *)
Lemma childHeaderLoop_fuel (hot : Hot) (fuel extra : nat) (lvl : option ColspanLevel)
  (row start i colspan : Z) (range : list Z) :
  start + colspan - i <= Z.of_nat fuel ->
  childHeaderLoop hot (fuel + extra) lvl row start i colspan range
  = childHeaderLoop hot fuel lvl row start i colspan range.
Proof.
  revert i colspan range.
  induction fuel as [|fuel IH]; intros i colspan range Hfuel.
  - destruct extra; simpl; [done|].
    destruct (Z.ltb_spec i (start + colspan)); [lia | done].
  - simpl. destruct (Z.ltb_spec i (start + colspan)); [|done].
    apply IH.
    destruct lvl as [l|]; [|lia].
    destruct (colspanAt l i) as [c|]; [|lia].
    destruct (Z.ltb_spec 1 c); lia.
Qed.

(** The walk appends at most one entry per position up to its bound. *)
Lemma childHeaderLoop_length (hot : Hot) (fuel : nat) (lvl : option ColspanLevel)
  (row start i colspan : Z) (range : list Z) :
  (length (childHeaderLoop hot fuel lvl row start i colspan range)
   <= length range + Z.to_nat (start + colspan - i))%nat.
Proof.
  revert i colspan range.
  induction fuel as [|fuel IH]; intros i colspan range; simpl; [lia|].
  destruct (Z.ltb_spec i (start + colspan)); [|lia].
  etransitivity; [apply IH|].
  assert (match lvl with
          | Some l =>
            match colspanAt l i with
            | Some c => if 1 <? c then colspan - c else colspan
            | None => colspan
            end
          | None => colspan
          end <= colspan) as Hshrink.
  { destruct lvl as [l|]; [|lia]. destruct (colspanAt l i) as [c|]; [|lia].
    destruct (Z.ltb_spec 1 c); lia. }
  destruct (indexOf range (nestedColumnIndexToRealIndex hot (row + 1) i) =? -1);
    rewrite ?length_app; simpl; lia.
Qed.

(** Whatever the translations answer: when the first child of a section
    spans [c > 1] columns, the walk is cut down to the first child and
    [colspan - c - 1] further positions, so a section of colspan 4 over
    children of colspan 2, 1, 1 never gets its three children back. *)
Lemma getChildHeaders_first_spanning (hot : Hot) (levels : ColspanTable)
  (lvl : ColspanLevel) (row col colspan c : Z) (childHeaders : list Z) :
  colspanSettings hot = Some levels ->
  levelAt levels (columnHeaderLevelCount hot + row + 1) = Some lvl ->
  colspanAt lvl
    (realColumnIndexToNestedIndex hot (row + 1) (nestedColumnIndexToRealIndex hot row col))
  = Some c ->
  1 < c ->
  getChildHeaders hot row col (Some colspan) = Some childHeaders ->
  (length childHeaders <= Z.to_nat (Z.max 1 (colspan - c)))%nat.
Proof.
  intros Ht Hlevel Hfirst Hc. unfold getChildHeaders. rewrite Ht, Hlevel.
  intros [= <-].
  destruct (Z.to_nat colspan) as [|fuel]; simpl; [lia|].
  destruct (Z.ltb_spec
              (realColumnIndexToNestedIndex hot (row + 1)
                 (nestedColumnIndexToRealIndex hot row col))
              (realColumnIndexToNestedIndex hot (row + 1)
                 (nestedColumnIndexToRealIndex hot row col) + colspan));
    [|simpl; lia].
  rewrite Hfirst. destruct (Z.ltb_spec 1 c); [|lia].
  etransitivity; [apply childHeaderLoop_length|]. simpl. lia.
Qed.

(** C5, at the failing layout: under a top section of colspan 4 the
    second level has three header cells, at nested positions 0, 1, 2 and
    real columns 0, 2, 3 (the first spans two columns). The walk stops
    after two positions and returns [0; 2]: the child at real column 3 is
    not in the result. *)
Theorem getChildHeaders_merged_first :
  map (nestedColumnIndexToRealIndex mergedFirstHot (-1)) [0; 1; 2] = [0; 2; 3]
  /\ getChildHeaders mergedFirstHot (-2) 0 (Some 4) = Some [0; 2].
Proof. vm_compute. auto. Qed.

(** ** Activation *)

(** The indicator is drawn on every header cell of colspan above 1,
    whether or not the dependency check has failed. *)
Lemma indicator_ignores_dependencies (hot : Hot) (col : Z) (TH : HeaderCell) (p : Plugin) :
  gt1 (colspanAttr TH) = true ->
  onAfterGetColHeader hot col TH (onAfterInit hot p).1
  = Some (generateIndicator hot col TH p).
Proof.
  intros Hspan. unfold onAfterInit, onAfterGetColHeader.
  destruct (checkDependencies hot p) as [result warnings]. simpl.
  by rewrite Hspan.
Qed.

(** C6, at the failing input: nested headers are configured, the
    hidden-columns setting is absent. [checkDependencies] warns and
    returns [false], [onAfterInit] drops that value, a header cell of
    colspan 4 still receives an indicator, and a click on it raises in
    [toggleCollapsedSection] after the section has been marked. *)
Theorem indicator_without_hiddenColumns :
  checkDependencies cascadeHot (newPlugin HCMissing) = (Some false, [dependencyWarning])
  /\ onAfterInit cascadeHot (newPlugin HCMissing)
     = (newPlugin HCMissing, [dependencyWarning])
  /\ onAfterGetColHeader cascadeHot 0 topCell (newPlugin HCMissing)
     = Some IndicatorExpanded
  /\ collapseSection cascadeHot (-2) 0 topCell (newPlugin HCMissing)
     = Thrown
         {| collapsedSections :=
              <[ -2 := {[ 0 := JBool true ]} ]> {[ -1 := {[ 2 := JBool true ]} ]};
            hiddenColumns := HCMissing |}.
Proof. vm_compute. auto. Qed.

(** ** Exceptions of the recursive marking *)

Lemma forLoopM_skip {St : Type} (f : Z -> St -> outcome St) (n : nat) (i : Z) (s : St) :
  (forall j t, f j t = Done t) -> forLoopM n i f s = Done s.
Proof.
  intros Hf. revert i.
  induction n as [|n IH]; intros i; simpl; [done|].
  rewrite Hf. apply IH.
Qed.

Lemma markSectionAs_rec_done (hot : Hot) (t : ColspanTable) (state : SectionState)
  (fuel : nat) :
  colspanSettings hot = Some t ->
  (forall k lvl, levelAt t k = Some lvl -> theadHasRow hot k = true) ->
  forall row col cs level,
    levelAt t (columnHeaderLevelCount hot + row) = Some level ->
    Z.of_nat (length t) - (columnHeaderLevelCount hot + row) <= Z.of_nat fuel ->
    exists cs', markSectionAs_rec hot fuel state row col true cs = Done cs'.
Proof.
  intros Ht Hrows.
  induction fuel as [|fuel IH]; intros row col cs level Hlevel Hfuel;
    cbn [markSectionAs_rec]; rewrite Ht, Hlevel;
    unfold getChildHeaders; rewrite Ht;
    (destruct (colspanAt level col) as [c|]);
    apply forLoopM_done; intros j w;
    (destruct (levelAt t (columnHeaderLevelCount hot + row + 1)) as [childLevel|] eqn:Ec;
       [|by eexists]);
    (destruct (gt1 _); [|by eexists]);
    rewrite (Hrows _ _ Ec);
    pose proof (levelAt_Some_range _ _ _ Ec) as Hrange;
    try lia.
  all: eapply IH;
    [replace (columnHeaderLevelCount hot + (row + 1))
       with (columnHeaderLevelCount hot + row + 1) by lia; apply Ec | lia].
Qed.

(** Without a record for the child level the marking writes the
    section's own flag and returns. *)
Lemma markSectionAs_leaf (hot : Hot) (t : ColspanTable) (level : ColspanLevel)
  (state : SectionState) (row col : Z) (cs : gmap Z (gmap Z jsval)) :
  colspanSettings hot = Some t ->
  levelAt t (columnHeaderLevelCount hot + row) = Some level ->
  levelAt t (columnHeaderLevelCount hot + row + 1) = None ->
  markSectionAs hot state row col true cs
  = Done (storeState state row col (ensureRow row cs)).
Proof.
  intros Ht Hlevel Hchild. unfold markSectionAs.
  destruct (markFuel hot); cbn [markSectionAs_rec]; rewrite Ht, Hlevel;
    unfold getChildHeaders; rewrite Ht;
    (destruct (colspanAt level col));
    apply forLoopM_skip; intros j w; by rewrite Hchild.
Qed.

(** C7 (as stated, refuted): the header has two rows but the colspan
    table has no record for the second one; marking the section at row
    [-1], position 0 recursively raises, after the section's own flag
    has been written. *)
Lemma markSectionAs_throws_without_level :
  markSectionAs topOnlyHot collapsed (-1) 0 true ∅
  = Thrown {[ -1 := {[ 0 := JBool true ]} ]}.
Proof. vm_compute. reflexivity. Qed.

(** C7 (amended): when the colspan table has a record for the level of
    the section being marked, and the THEAD has a row for every level
    that has a record, a recursive marking returns normally, whatever the
    records hold (holes, colspans of any sign or size, missing deeper
    levels); and when the record of the child level is missing, the
    marking writes the section's own flag and nothing else. *)
Theorem markSectionAs_no_throw (hot : Hot) (t : ColspanTable) (level : ColspanLevel)
  (state : SectionState) (row col : Z) (cs : gmap Z (gmap Z jsval)) :
  colspanSettings hot = Some t ->
  levelAt t (columnHeaderLevelCount hot + row) = Some level ->
  (forall k lvl, levelAt t k = Some lvl -> theadHasRow hot k = true) ->
  (exists cs', markSectionAs hot state row col true cs = Done cs')
  /\ (levelAt t (columnHeaderLevelCount hot + row + 1) = None ->
      markSectionAs hot state row col true cs
      = Done (storeState state row col (ensureRow row cs))).
Proof.
  intros Ht Hlevel Hrows. split.
  - unfold markSectionAs, markFuel. rewrite Ht.
    apply (markSectionAs_rec_done hot t state (length t) Ht Hrows row col cs level Hlevel).
    apply levelAt_Some_range in Hlevel. lia.
  - intros Hchild. by apply (markSectionAs_leaf hot t level).
Qed.

Lemma markSectionAs_no_throw_witness :
  markSectionAs topOnlyHot expanded (-2) 0 true ∅
  = Done (storeState expanded (-2) 0 (ensureRow (-2) ∅)).
Proof.
  refine (proj2 (markSectionAs_no_throw topOnlyHot [Some [Some 2]] [Some 2]
                   expanded (-2) 0 ∅ eq_refl eq_refl _) eq_refl).
  intros k lvl Hk. apply levelAt_Some_range in Hk. simpl in Hk.
  assert (k = 0) as -> by lia. reflexivity.
Defined.

(** ** The entries of the store *)

Lemma slot_markKey (state : SectionState) (k : Z * Z) (r c : Z)
  (cs : gmap Z (gmap Z jsval)) :
  slot (markKey state k cs) r c
  = if decide ((r, c) = k) then Some (stateValue state) else slot cs r c.
Proof.
  unfold slot. rewrite markKey_lookup. destruct k as [kr kc]; simpl.
  destruct (decide (r = kr)) as [->|Hr].
  - destruct (decide (c = kc)) as [->|Hc].
    + rewrite decide_True by done. by rewrite lookup_insert_eq.
    + rewrite decide_False by congruence. rewrite lookup_insert_ne by done.
      by destruct (cs !! kr).
  - by rewrite decide_False by congruence.
Qed.

Lemma isCollapsed_slot (cs : gmap Z (gmap Z jsval)) (row col : Z) :
  isCollapsed cs row col
  = match slot cs row col with
    | Some (JBool true) => true
    | _ => false
    end.
Proof. unfold isCollapsed, slot. by destruct (cs !! row). Qed.

Lemma holds_slot (state : SectionState) (cs : gmap Z (gmap Z jsval)) (row col : Z) :
  holds state cs (row, col) <-> slot cs row col = Some (stateValue state).
Proof.
  unfold holds, slot. simpl. split.
  - intros (r & -> & Hc). done.
  - destruct (cs !! row) as [r|]; [|done]. intros Hc. by exists r.
Qed.

Lemma neverFalse_markKey (state : SectionState) (k : Z * Z) (cs : gmap Z (gmap Z jsval)) :
  neverFalse cs -> neverFalse (markKey state k cs).
Proof.
  intros Hcs row col. rewrite slot_markKey.
  case_decide; [by destruct state | apply Hcs].
Qed.

Lemma neverFalse_ensureRow (row : Z) (cs : gmap Z (gmap Z jsval)) :
  neverFalse cs -> neverFalse (ensureRow row cs).
Proof.
  intros Hcs r c. specialize (Hcs r c). unfold slot in *.
  rewrite ensureRow_lookup. case_decide; subst; [|done].
  destruct (cs !! row); simpl; [done|]. by rewrite lookup_empty.
Qed.

Lemma neverFalse_markSectionAs (hot : Hot) (state : SectionState) (row col : Z)
  (recursive : bool) (cs : gmap Z (gmap Z jsval)) :
  neverFalse cs -> outcomeAll neverFalse (markSectionAs hot state row col recursive cs).
Proof.
  intros Hcs.
  apply (markSectionAs_rec_all hot neverFalse state row); [|lia|done].
  intros r c cs0 _. apply neverFalse_markKey.
Qed.

Lemma neverFalse_toggle (hot : Hot) (row col : Z) (TD : HeaderCell)
  (action : ToggleAction) (p : Plugin) :
  neverFalse (collapsedSections p) ->
  outcomeAll (fun p' => neverFalse (collapsedSections p'))
    (toggleCollapsedSection hot row col TD action p).
Proof.
  intros Hp. unfold toggleCollapsedSection.
  destruct (hiddenColumns p); [done | |];
    (destruct action; [destruct (getChildHeaders _ _ _ _)|]); done.
Qed.

Lemma neverFalse_markThenToggle (hot : Hot) (state : SectionState)
  (action : ToggleAction) (row col : Z) (TD : HeaderCell) (p : Plugin) :
  neverFalse (collapsedSections p) ->
  outcomeAll (fun p' => neverFalse (collapsedSections p'))
    (markThenToggle hot state action row col TD p).
Proof.
  intros Hp. unfold markThenToggle.
  pose proof (neverFalse_markSectionAs hot state row col true _ Hp) as Hm.
  destruct (markSectionAs hot state row col true (collapsedSections p)) as [cs|cs|];
    simpl in *; [|done|done].
  by apply neverFalse_toggle.
Qed.

Lemma neverFalse_click (hot : Hot) (target : EventTarget) (row col : Z)
  (TD : HeaderCell) (p : Plugin) :
  neverFalse (collapsedSections p) ->
  outcomeAll (fun p' => neverFalse (collapsedSections p'))
    (onBeforeOnCellMouseDown hot target row col TD p).
Proof.
  intros Hp. unfold onBeforeOnCellMouseDown.
  destruct (isCollapsibleIndicator target); [|done].
  destruct (hasExpandedClass target).
  - apply neverFalse_markThenToggle. simpl. by apply neverFalse_ensureRow.
  - destruct (hasCollapsedClass target); [|done].
    by apply neverFalse_markThenToggle.
Qed.

Lemma reachable_neverFalse (p : Plugin) :
  reachable p -> neverFalse (collapsedSections p).
Proof.
  induction 1 as [h | hot state row col recursive p cs _ IH Hend
                  | hot row col TD action p p' _ IH Hend
                  | hot target row col TD p p' _ IH Hend].
  - intros row col. unfold slot. simpl. by rewrite lookup_empty.
  - simpl. eapply outcomeAll_endsWith; [|exact Hend].
    by apply neverFalse_markSectionAs.
  - eapply (outcomeAll_endsWith (fun p' => neverFalse (collapsedSections p')));
      [|exact Hend].
    by apply neverFalse_toggle.
  - eapply (outcomeAll_endsWith (fun p' => neverFalse (collapsedSections p')));
      [|exact Hend].
    by apply neverFalse_click.
Qed.

(** C4 (as stated, refuted): in the cascade scenario a collapse followed
    by an expand of the top section leaves its key in the store, holding
    [undefined]: the entry of the expanded section has not been
    removed. *)
Lemma expanded_entry_remains :
  exists p1 p2,
    collapseSection cascadeHot (-2) 0 topCell (newPlugin (HCObject (Some []))) = Done p1
    /\ expandSection cascadeHot (-2) 0 topCell p1 = Done p2
    /\ reachable p2
    /\ slot (collapsedSections p2) (-2) 0 = Some JUndefined
    /\ collapsedSections p2 !! (-2) = Some {[ 0 := JUndefined ]}.
Proof.
  eexists. eexists.
  split; [vm_compute; reflexivity|].
  split; [vm_compute; reflexivity|].
  split.
  - eapply (reachable_click cascadeHot
              {| isCollapsibleIndicator := true; hasExpandedClass := false;
                 hasCollapsedClass := true |} (-2) 0 topCell).
    + eapply (reachable_click cascadeHot
                {| isCollapsibleIndicator := true; hasExpandedClass := true;
                   hasCollapsedClass := false |} (-2) 0 topCell).
      * apply (reachable_new (HCObject (Some []))).
      * left. vm_compute. reflexivity.
    + left. vm_compute. reflexivity.
  - vm_compute. auto.
Qed.

(** C4 (amended): in every reachable state a slot of the store is
    absent, holds [undefined] or holds [true] -- never [false]; the
    section reads as collapsed exactly when the slot holds [true], so a
    section that is expanded has no entry or an entry holding
    [undefined]. *)
Theorem reachable_slots (p : Plugin) (row col : Z) :
  reachable p ->
  match slot (collapsedSections p) row col with
  | None | Some JUndefined => isCollapsed (collapsedSections p) row col = false
  | Some (JBool true) => isCollapsed (collapsedSections p) row col = true
  | Some (JBool false) => False
  end.
Proof.
  intros Hp. apply reachable_neverFalse in Hp. specialize (Hp row col).
  rewrite isCollapsed_slot.
  destruct (slot (collapsedSections p) row col) as [[|[|]]|]; done.
Qed.

Lemma reachable_slots_witness :
  isCollapsed
    (collapsedSections
       (withSections (newPlugin HCTrue) {[ -2 := {[ 0 := JUndefined ]} ]})) (-2) 0
  = false.
Proof.
  refine (reachable_slots
            (withSections (newPlugin HCTrue) {[ -2 := {[ 0 := JUndefined ]} ]})
            (-2) 0 _).
  apply (reachable_mark cascadeHot expanded (-2) 0 false (newPlugin HCTrue)).
  - apply reachable_new.
  - left. vm_compute. reflexivity.
Defined.

(** ** Rendering of a slot holding [undefined] *)

(** C10: the indicator is drawn collapsed exactly when the slot of the
    section holds [true]; marking a section as expanded, recursively or
    not, leaves its slot present and holding [undefined]; and a store
    with [undefined] in a slot reads, for every section, like the store
    with that slot removed. *)
Theorem undefined_reads_expanded :
  (forall hot col TH p,
      generateIndicator hot col TH p = IndicatorCollapsed
      <-> slot (collapsedSections p) (-1 * theadRows hot + rowIndex TH) col
          = Some (JBool true))
  /\ (forall hot row col recursive cs cs',
         endsWith (markSectionAs hot expanded row col recursive cs) cs' ->
         slot cs' row col = Some JUndefined /\ isCollapsed cs' row col = false)
  /\ (forall row col cs r c,
         isCollapsed (storeCell row col JUndefined cs) r c
         = isCollapsed (removeCell row col cs) r c).
Proof.
  split; [|split].
  - intros hot col TH p. unfold generateIndicator. rewrite isCollapsed_slot.
    destruct (slot _ _ _) as [[|[|]]|]; split; congruence.
  - intros hot row col recursive cs cs' Hend.
    apply markedSections_self, holds_slot in Hend. simpl in Hend.
    split; [done|]. by rewrite isCollapsed_slot, Hend.
  - intros row col cs r c. unfold isCollapsed, storeCell, removeCell.
    destruct (cs !! row) as [x|] eqn:E; [|done].
    destruct (decide (r = row)) as [->|Hr].
    + rewrite !lookup_insert_eq.
      destruct (decide (c = col)) as [->|Hc].
      * by rewrite lookup_insert_eq, lookup_delete_eq.
      * by rewrite lookup_insert_ne, lookup_delete_ne.
    + by rewrite !lookup_insert_ne.
Qed.

Lemma undefined_reads_expanded_witness :
  generateIndicator cascadeHot 0 topCell
    (withSections (newPlugin HCTrue) {[ -2 := {[ 0 := JBool true ]} ]})
  = IndicatorCollapsed
  /\ slot {[ -2 := {[ 0 := JUndefined ]} ]} (-2) 0 = Some JUndefined.
Proof.
  destruct undefined_reads_expanded as (Hdraw & Hmark & _).
  split.
  - apply (proj2 (Hdraw cascadeHot 0 topCell
                    (withSections (newPlugin HCTrue) {[ -2 := {[ 0 := JBool true ]} ]}))).
    vm_compute. reflexivity.
  - refine (proj1 (Hmark cascadeHot (-2) 0 false ∅ _ _)).
    left. vm_compute. reflexivity.
Defined.

(** ** Which children the recursive marking descends into *)

Lemma forLoopM_nth (F : Z -> gmap Z (gmap Z jsval) -> outcome (gmap Z (gmap Z jsval)))
  (pre rest : list Z) (cs : gmap Z (gmap Z jsval)) :
  forLoopM (length rest) (Z.of_nat (length pre))
    (fun i cs' => F (nth (Z.to_nat i) (pre ++ rest) 0) cs') cs
  = markEach F rest cs.
Proof.
  revert pre cs.
  induction rest as [|x rest IH]; intros pre cs; simpl; [done|].
  rewrite Nat2Z.id, nth_middle.
  destruct (F x cs) as [cs'| |]; try done.
  specialize (IH (pre ++ [x]) cs').
  rewrite <- app_assoc in IH. simpl in IH.
  rewrite length_app in IH. simpl in IH.
  replace (Z.of_nat (length pre + 1)) with (Z.of_nat (length pre) + 1) in IH by lia.
  exact IH.
Qed.

Lemma markEach_ext (F G : Z -> gmap Z (gmap Z jsval) -> outcome (gmap Z (gmap Z jsval)))
  (l : list Z) (cs : gmap Z (gmap Z jsval)) :
  (forall x cs', F x cs' = G x cs') -> markEach F l cs = markEach G l cs.
Proof.
  intros HFG. revert cs.
  induction l as [|x l IH]; intros cs; simpl; [done|].
  rewrite HFG. destruct (G x cs); auto.
Qed.

Lemma markEach_filter_map
  (G : Z -> gmap Z (gmap Z jsval) -> outcome (gmap Z (gmap Z jsval)))
  (g : Z -> Z) (cond : Z -> bool) (l : list Z) (cs : gmap Z (gmap Z jsval)) :
  markEach (fun x cs' => if cond (g x) then G (g x) cs' else Done cs') l cs
  = markEach G (filter (fun y => cond y = true) (map g l)) cs.
Proof.
  revert cs.
  induction l as [|x l IH]; intros cs; simpl; [done|].
  destruct (cond (g x)) eqn:E.
  - rewrite filter_cons_True by done. simpl.
    destruct (G (g x) cs); auto.
  - rewrite filter_cons_False by congruence. apply IH.
Qed.

(** One level of the recursion, unfolded. *)
Lemma markSectionAs_unfold (hot : Hot) (t : ColspanTable) (level : ColspanLevel)
  (childHeaders : list Z) (state : SectionState) (row col : Z)
  (cs : gmap Z (gmap Z jsval)) :
  colspanSettings hot = Some t ->
  levelAt t (columnHeaderLevelCount hot + row) = Some level ->
  getChildHeaders hot row col (colspanAt level col) = Some childHeaders ->
  markSectionAs hot state row col true cs
  = markEach
      (fun nestedIndex cs' =>
         if theadHasRow hot (columnHeaderLevelCount hot + row + 1)
         then markSectionAs hot state (row + 1) nestedIndex true cs'
         else Thrown cs')
      (childrenToMark hot row childHeaders)
      (storeState state row col (ensureRow row cs)).
Proof.
  intros Ht Hlevel Hchildren.
  pose proof (levelAt_Some_range _ _ _ Hlevel) as Hrange.
  unfold markSectionAs at 1, childrenToMark. rewrite Ht.
  destruct (markFuel hot) as [|fuel] eqn:Hfuel.
  { unfold markFuel in Hfuel. rewrite Ht in Hfuel. lia. }
  cbn [markSectionAs_rec]. rewrite Ht, Hlevel, Hchildren.
  destruct (levelAt t (columnHeaderLevelCount hot + row + 1)) as [childLevel|] eqn:Ec.
  - pose proof (levelAt_Some_range _ _ _ Ec) as Hc.
    destruct childHeaders as [|first rest]; [done|].
    replace (length (first :: rest) - 1)%nat with (length rest) by (simpl; lia).
    rewrite (forLoopM_nth
               (fun child cs' =>
                  if gt1 (colspanAt childLevel
                            (realColumnIndexToNestedIndex hot (row + 1) child))
                  then
                    if theadHasRow hot (columnHeaderLevelCount hot + row + 1)
                    then markSectionAs_rec hot fuel state (row + 1)
                           (realColumnIndexToNestedIndex hot (row + 1) child) true cs'
                    else Thrown cs'
                  else Done cs')
               [first] rest).
    simpl tail.
    rewrite (markEach_filter_map
               (fun nestedIndex cs' =>
                  if theadHasRow hot (columnHeaderLevelCount hot + row + 1)
                  then markSectionAs_rec hot fuel state (row + 1) nestedIndex true cs'
                  else Thrown cs')
               (realColumnIndexToNestedIndex hot (row + 1))
               (fun nestedIndex => gt1 (colspanAt childLevel nestedIndex))).
    apply markEach_ext. intros nestedIndex cs'.
    destruct (theadHasRow hot _); [|done].
    unfold markSectionAs. rewrite Hfuel.
    apply markSectionAs_rec_fuel; unfold markFuel in *; rewrite Ht in *; lia.
  - simpl. apply forLoopM_skip. done.
Qed.

Lemma elem_of_tail {A : Type} (l : list A) (x : A) :
  x ∈ tail l <-> exists i, (1 <= i)%nat /\ l !! i = Some x.
Proof.
  destruct l as [|y l]; simpl.
  - split; [by intros H%not_elem_of_nil | by intros (i & _ & H)].
  - rewrite list_elem_of_lookup. split.
    + intros [i Hi]. exists (S i). split; [lia | done].
    + intros ([|i] & Hi & Hl); [lia|]. by exists i.
Qed.

(** C9: a recursive marking of a section writes the section's own flag
    and then marks, with the same state and one level down, each
    position of [childrenToMark] in order; these positions are exactly
    the nested positions of the children returned by [getChildHeaders]
    at index 1 or above (the first child is skipped) that span more than
    one column at the child level. *)
Theorem markSectionAs_children (hot : Hot) (t : ColspanTable) (level : ColspanLevel)
  (childHeaders : list Z) (state : SectionState) (row col : Z)
  (cs : gmap Z (gmap Z jsval)) :
  colspanSettings hot = Some t ->
  levelAt t (columnHeaderLevelCount hot + row) = Some level ->
  getChildHeaders hot row col (colspanAt level col) = Some childHeaders ->
  markSectionAs hot state row col true cs
  = markEach
      (fun nestedIndex cs' =>
         if theadHasRow hot (columnHeaderLevelCount hot + row + 1)
         then markSectionAs hot state (row + 1) nestedIndex true cs'
         else Thrown cs')
      (childrenToMark hot row childHeaders)
      (storeState state row col (ensureRow row cs))
  /\ (forall nestedIndex,
         nestedIndex ∈ childrenToMark hot row childHeaders
         <-> exists i child childLevel,
               (1 <= i)%nat
               /\ childHeaders !! i = Some child
               /\ nestedIndex = realColumnIndexToNestedIndex hot (row + 1) child
               /\ levelAt t (columnHeaderLevelCount hot + row + 1) = Some childLevel
               /\ gt1 (colspanAt childLevel nestedIndex) = true).
Proof.
  intros Ht Hlevel Hchildren. split.
  - by apply (markSectionAs_unfold hot t level).
  - intros nestedIndex. unfold childrenToMark. rewrite Ht.
    destruct (levelAt t (columnHeaderLevelCount hot + row + 1)) as [childLevel|].
    + rewrite list_elem_of_filter.
      change (map (realColumnIndexToNestedIndex hot (row + 1)) (tail childHeaders))
        with (realColumnIndexToNestedIndex hot (row + 1) <$> tail childHeaders).
      rewrite list_elem_of_fmap. split.
      * intros (Hspan & child & -> & (i & Hi & Hl)%elem_of_tail).
        by exists i, child, childLevel.
      * intros (i & child & childLevel' & Hi & Hl & -> & [= <-] & Hspan).
        split; [done|]. exists child. split; [done|].
        apply elem_of_tail. by exists i.
    + split; [by intros H%not_elem_of_nil|].
      by intros (i & child & childLevel & _ & _ & _ & H & _).
Qed.

Lemma markSectionAs_children_witness :
  markSectionAs cascadeHot collapsed (-2) 0 true ∅
  = markEach
      (fun nestedIndex cs' =>
         if theadHasRow cascadeHot (columnHeaderLevelCount cascadeHot + -2 + 1)
         then markSectionAs cascadeHot collapsed (-2 + 1) nestedIndex true cs'
         else Thrown cs')
      (childrenToMark cascadeHot (-2) [0; 1; 2])
      (storeState collapsed (-2) 0 (ensureRow (-2) ∅))
  /\ childrenToMark cascadeHot (-2) [0; 1; 2] = [2].
Proof.
  split.
  - apply (markSectionAs_children cascadeHot
             [Some [Some 4]; Some [Some 1; Some 1; Some 2]] [Some 4] [0; 1; 2]
             collapsed (-2) 0 ∅); reflexivity.
  - reflexivity.
Defined.

(** ** The columns hidden by a collapse *)

Lemma seqZ_to_nat (m n : Z) : seqZ m (Z.of_nat (Z.to_nat n)) = seqZ m n.
Proof.
  destruct (Z.le_gt_cases n 0).
  - rewrite !seqZ_nil by lia. done.
  - by rewrite Z2Nat.id by lia.
Qed.

Lemma seqZ_step (m : Z) (n : nat) :
  seqZ m (Z.of_nat (S n)) = m :: seqZ (m + 1) (Z.of_nat n).
Proof.
  rewrite seqZ_cons by lia. f_equal. f_equal; lia.
Qed.

Lemma hideLoop_appends (hidden : list Z) (leftmost : Z) (n : nat) (i : Z) (arr : list Z) :
  forLoop n i
    (fun i arr =>
       let colToHide := leftmost + i in
       if indexOf hidden colToHide =? -1 then arr ++ [colToHide] else arr) arr
  = arr ++ filter (fun c => c ∉ hidden)
             ((fun j => leftmost + j) <$> seqZ i (Z.of_nat n)).
Proof.
  revert i arr.
  induction n as [|n IH]; intros i arr.
  - simpl. by rewrite app_nil_r.
  - cbn [forLoop]. rewrite IH, seqZ_step, fmap_cons. cbv zeta.
    destruct (Z.eqb_spec (indexOf hidden (leftmost + i)) (-1)) as [E|E].
    + apply indexOf_absent in E. rewrite filter_cons_True by done.
      by rewrite <- app_assoc.
    + rewrite filter_cons_False; [done|].
      intros Hnot. by apply E, indexOf_absent.
Qed.

Lemma hideColumns_appends (hidden : list Z) (leftmost first : Z)
  (headerColspan : option Z) (arr : list Z) :
  hideColumns hidden leftmost first headerColspan arr
  = arr ++ filter (fun c => c ∉ hidden)
             ((fun j => leftmost + j)
                <$> match headerColspan with
                    | Some colspan => seqZ first (colspan - first)
                    | None => []
                    end).
Proof.
  unfold hideColumns. destruct headerColspan as [colspan|].
  - unfold forRange. by rewrite hideLoop_appends, seqZ_to_nat.
  - by rewrite app_nil_r.
Qed.

(** What a returning collapse transition has done, in terms of the
    calls it is made of. *)
Lemma collapseSection_Done (hot : Hot) (row col : Z) (TD : HeaderCell) (p p1 : Plugin) :
  collapseSection hot row col TD p = Done p1 ->
  exists cs1 childHeaders,
    markSectionAs hot collapsed row col true (ensureRow row (collapsedSections p))
    = Done cs1
    /\ getChildHeaders hot row col (colspanAttr TD) = Some childHeaders
    /\ hiddenColumns p <> HCMissing
    /\ p1 = {| collapsedSections := cs1;
               hiddenColumns :=
                 HCObject
                   (Some (hideColumns (hiddenList (hiddenColumns p))
                            (col + getColspanOffset hot col
                                     (theadRows hot - rowIndex TD - 1))
                            (firstElementColspan childHeaders) (colspanAttr TD)
                            (hiddenList (hiddenColumns p)))) |}.
Proof.
  unfold collapseSection, onBeforeOnCellMouseDown, markThenToggle. simpl.
  destruct (markSectionAs hot collapsed row col true _) as [cs1| |]; try done.
  unfold toggleCollapsedSection. simpl.
  destruct (hiddenColumns p) as [| |columns] eqn:Eh; try done;
    (destruct (getChildHeaders hot row col (colspanAttr TD)) as [childHeaders|];
       [|done]);
    intros [= <-]; exists cs1, childHeaders; done.
Qed.

(** C3 (as stated, refuted): the top section of [singleChildHot] has one
    immediate child, whose colspan is 4; the collapse nevertheless hides
    the columns at offsets 1, 2 and 3, so one leading column stays
    visible, not four. *)
Lemma single_child_keeps_one_column :
  getChildHeaders singleChildHot (-2) 0 (Some 4) = Some [0]
  /\ colspanAt [Some 4] (realColumnIndexToNestedIndex singleChildHot (-1) 0) = Some 4
  /\ exists p1,
       collapseSection singleChildHot (-2) 0 topCell (newPlugin (HCObject (Some [])))
       = Done p1
       /\ hiddenList (hiddenColumns p1) = [1; 2; 3].
Proof.
  split; [reflexivity|]. split; [reflexivity|].
  eexists. split; [vm_compute; reflexivity|]. reflexivity.
Qed.

(** C3 (amended): in every collapse transition that returns, the number
    of leading real columns that stay visible is the distance between
    the real indices of the first two children returned by
    [getChildHeaders], or 1 when fewer than two children are returned or
    the second real index is 0; the real columns at the offsets from that
    number through [colspan - 1] from the section's leftmost column
    ([coords.col] plus the column offset) are appended to the hidden
    list in increasing order, except those the list held before. *)
Theorem collapse_hidden_columns (hot : Hot) (row col : Z) (TD : HeaderCell)
  (p p1 : Plugin) :
  collapseSection hot row col TD p = Done p1 ->
  exists childHeaders offset,
    getChildHeaders hot row col (colspanAttr TD) = Some childHeaders
    /\ offset = match childHeaders with
                | first :: second :: _ => if second =? 0 then 1 else second - first
                | _ => 1
                end
    /\ hiddenList (hiddenColumns p1)
       = hiddenList (hiddenColumns p)
         ++ filter (fun c => c ∉ hiddenList (hiddenColumns p))
              ((fun i => col + getColspanOffset hot col (theadRows hot - rowIndex TD - 1)
                         + i)
                 <$> match colspanAttr TD with
                     | Some colspan => seqZ offset (colspan - offset)
                     | None => []
                     end).
Proof.
  intros (cs1 & childHeaders & _ & Hch & _ & ->)%collapseSection_Done.
  exists childHeaders, (firstElementColspan childHeaders).
  split; [done|]. split.
  - unfold firstElementColspan. by destruct childHeaders as [|first [|second rest]].
  - simpl. apply hideColumns_appends.
Qed.

Lemma collapse_hidden_columns_witness :
  exists childHeaders offset,
    getChildHeaders cascadeHot (-2) 0 (Some 4) = Some childHeaders
    /\ offset = match childHeaders with
                | first :: second :: _ => if second =? 0 then 1 else second - first
                | _ => 1
                end
    /\ [3; 1; 2]
       = [3] ++ filter (fun c => c ∉ [3])
                  ((fun i => 0 + 0 + i) <$> seqZ offset (4 - offset)).
Proof.
  refine (collapse_hidden_columns cascadeHot (-2) 0 topCell
            (newPlugin (HCObject (Some [3])))
            {| collapsedSections :=
                 <[ -2 := {[ 0 := JBool true ]} ]> {[ -1 := {[ 2 := JBool true ]} ]};
               hiddenColumns := HCObject (Some [3; 1; 2]) |} _).
  vm_compute. reflexivity.
Defined.

(** ** Collapse followed by expand *)

Lemma showLoop_undo (hidden : list Z) (leftmost : Z) (n : nat) :
  forall i s m,
    (forall j, i <= j < i + Z.of_nat n -> leftmost + j ∉ hidden) ->
    i <= s ->
    (0 < m -> s + m = i + Z.of_nat n) ->
    forLoop n i
      (fun i arr =>
         let colToHide := leftmost + i in
         let foundIndex := indexOf arr colToHide in
         if -1 <? foundIndex then delete (Z.to_nat foundIndex) arr else arr)
      (hidden ++ ((fun j => leftmost + j) <$> seqZ s m))
    = hidden.
Proof.
  induction n as [|n IH]; intros i s m Hfree His Hend.
  - simpl. rewrite seqZ_nil by lia. apply app_nil_r.
  - cbn [forLoop]. cbv zeta.
    assert (leftmost + i ∉ hidden) as Hi by (apply Hfree; lia).
    destruct (Z.le_gt_cases m 0) as [Hm|Hm].
    { rewrite seqZ_nil by lia. simpl. rewrite app_nil_r.
      apply indexOf_absent in Hi. rewrite Hi. simpl.
      specialize (IH (i + 1) (i + 1) 0).
      rewrite seqZ_nil in IH by lia. simpl in IH. rewrite app_nil_r in IH.
      apply IH; [intros j Hj; apply Hfree; lia | lia | lia]. }
    destruct (Z.eq_dec i s) as [->|Hne].
    + rewrite seqZ_cons by lia. rewrite fmap_cons.
      rewrite indexOf_app_fresh by done.
      destruct (Z.ltb_spec (-1) (Z.of_nat (length hidden))) as [_|]; [|lia].
      rewrite Nat2Z.id, delete_middle.
      replace (Z.succ s) with (s + 1) by lia.
      apply IH; [intros j Hj; apply Hfree; lia | lia | lia].
    + assert (indexOf (hidden ++ ((fun j => leftmost + j) <$> seqZ s m)) (leftmost + i)
              = -1) as ->.
      { apply indexOf_absent. intros Hin.
        apply elem_of_app in Hin as [Hin|Hin]; [done|].
        apply list_elem_of_fmap in Hin as (j & Hj & Hin).
        apply elem_of_seqZ in Hin. lia. }
      simpl. apply IH; [intros j Hj; apply Hfree; lia | lia | lia].
Qed.

Lemma showColumns_hideColumns (hidden : list Z) (leftmost first : Z)
  (headerColspan : option Z) :
  1 <= first ->
  (forall colspan i,
      headerColspan = Some colspan -> 1 <= i < colspan -> leftmost + i ∉ hidden) ->
  showColumns leftmost headerColspan
    (hideColumns hidden leftmost first headerColspan hidden)
  = hidden.
Proof.
  intros Hfirst Hfree. rewrite hideColumns_appends.
  destruct headerColspan as [colspan|]; [|apply app_nil_r].
  rewrite filter_keeps_all.
  - unfold showColumns, forRange. apply showLoop_undo.
    + intros j Hj. apply (Hfree colspan); [done | lia].
    + done.
    + lia.
  - apply Forall_fmap, Forall_seqZ. intros j Hj. simpl.
    apply (Hfree colspan); [done | lia].
Qed.

Lemma markSectionAs_Done_keys (hot : Hot) (state : SectionState) (row col : Z)
  (cs cs1 : gmap Z (gmap Z jsval)) :
  markSectionAs hot state row col true cs = Done cs1 ->
  markedSections_rec hot (markFuel hot) row col true [] = Done (markedSections hot row col)
  /\ cs1 = applyKeys state (markedSections hot row col) cs.
Proof.
  rewrite markSectionAs_sim. unfold markedSections.
  destruct (markedSections_rec hot (markFuel hot) row col true []) as [w|w|];
    simpl; try done.
  by intros [= <-].
Qed.

Lemma markSectionAs_of_keys (hot : Hot) (row col : Z) (keys : list (Z * Z)) :
  markedSections_rec hot (markFuel hot) row col true [] = Done keys ->
  forall state cs,
    markSectionAs hot state row col true cs = Done (applyKeys state keys cs).
Proof. intros Hk state cs. rewrite markSectionAs_sim, Hk. done. Qed.

(** C1 (as stated, refuted): in the cascade scenario, (1) with real
    column 2 hidden beforehand, collapse then expand of the top section
    leaves no column hidden; (2) with the merged child of level 1
    collapsed beforehand (by a collapse of its own), collapse then expand
    of the top section leaves that child expanded. *)
Lemma roundtrip_not_restoring :
  (exists p1 p2,
      collapseSection cascadeHot (-2) 0 topCell (newPlugin (HCObject (Some [2])))
      = Done p1
      /\ expandSection cascadeHot (-2) 0 topCell p1 = Done p2
      /\ hiddenList (hiddenColumns (newPlugin (HCObject (Some [2])))) = [2]
      /\ hiddenList (hiddenColumns p2) = [])
  /\ (exists p0 p1 p2,
         collapseSection cascadeHot (-1) 2 mergedCell (newPlugin (HCObject (Some [])))
         = Done p0
         /\ collapseSection cascadeHot (-2) 0 topCell p0 = Done p1
         /\ expandSection cascadeHot (-2) 0 topCell p1 = Done p2
         /\ isCollapsed (collapsedSections p0) (-1) 2 = true
         /\ isCollapsed (collapsedSections p2) (-1) 2 = false).
Proof.
  split.
  - eexists. eexists.
    split; [vm_compute; reflexivity|].
    split; [vm_compute; reflexivity|].
    split; reflexivity.
  - eexists. eexists. eexists.
    split; [vm_compute; reflexivity|].
    split; [vm_compute; reflexivity|].
    split; [vm_compute; reflexivity|].
    split; reflexivity.
Qed.

(** C1 (amended): let a collapse transition of a section return, with
    the same grid answering both clicks. If beforehand none of the real
    columns at offsets 1 through [colspan - 1] of the section's span is
    hidden and neither the section nor any descendant section that the
    recursive marking writes is collapsed, and at least one leading
    column stays visible, then the expand transition that follows
    returns, restores the hidden-column list to its value before the
    collapse, and restores [isCollapsed] for every section. *)
Theorem collapse_then_expand (hot : Hot) (row col : Z) (TD : HeaderCell)
  (p p1 : Plugin) :
  collapseSection hot row col TD p = Done p1 ->
  (forall colspan i,
      colspanAttr TD = Some colspan -> 1 <= i < colspan ->
      col + getColspanOffset hot col (theadRows hot - rowIndex TD - 1) + i
        ∉ hiddenList (hiddenColumns p)) ->
  (forall childHeaders,
      getChildHeaders hot row col (colspanAttr TD) = Some childHeaders ->
      1 <= firstElementColspan childHeaders) ->
  (forall k, k ∈ markedSections hot row col ->
             isCollapsed (collapsedSections p) k.1 k.2 = false) ->
  exists p2,
    expandSection hot row col TD p1 = Done p2
    /\ hiddenList (hiddenColumns p2) = hiddenList (hiddenColumns p)
    /\ forall r c,
         isCollapsed (collapsedSections p2) r c = isCollapsed (collapsedSections p) r c.
Proof.
  intros (cs1 & childHeaders & Hmark & Hch & Hmiss & ->)%collapseSection_Done
         Hfree Hfirst Hexpanded.
  apply markSectionAs_Done_keys in Hmark as [Hkeys ->].
  unfold expandSection, onBeforeOnCellMouseDown, markThenToggle. simpl.
  rewrite (markSectionAs_of_keys hot row col _ Hkeys).
  unfold toggleCollapsedSection. simpl.
  eexists. split; [reflexivity|]. split.
  - simpl. apply showColumns_hideColumns; [by apply Hfirst | done].
  - intros r c. simpl.
    rewrite !isCollapsed_applyKeys, isCollapsed_ensureRow.
    case_decide as Hk; [|done].
    symmetry. apply (Hexpanded (r, c) Hk).
Qed.

Lemma collapse_then_expand_witness :
  exists p2,
    expandSection cascadeHot (-2) 0 topCell
      {| collapsedSections :=
           <[ -2 := {[ 0 := JBool true ]} ]> {[ -1 := {[ 2 := JBool true ]} ]};
         hiddenColumns := HCObject (Some [7; 1; 2; 3]) |}
    = Done p2
    /\ hiddenList (hiddenColumns p2) = [7]
    /\ forall r c, isCollapsed (collapsedSections p2) r c = isCollapsed ∅ r c.
Proof.
  refine (collapse_then_expand cascadeHot (-2) 0 topCell
            (newPlugin (HCObject (Some [7]))) _ _ _ _ _).
  - vm_compute. reflexivity.
  - intros colspan i [= <-] Hi. simpl.
    intros Hin%list_elem_of_singleton. lia.
  - intros childHeaders [= <-]. vm_compute. discriminate.
  - intros k Hk. unfold isCollapsed. simpl. by rewrite lookup_empty.
Defined.

(** ** The same toggle twice *)

Lemma showLoop_filter (leftmost : Z) (n : nat) (i : Z) (arr : list Z) :
  NoDup arr ->
  forLoop n i
    (fun i arr =>
       let colToHide := leftmost + i in
       let foundIndex := indexOf arr colToHide in
       if -1 <? foundIndex then delete (Z.to_nat foundIndex) arr else arr) arr
  = filter (fun c => c ∉ ((fun j => leftmost + j) <$> seqZ i (Z.of_nat n))) arr.
Proof.
  revert i arr.
  induction n as [|n IH]; intros i arr Hnd.
  - simpl. symmetry. apply filter_keeps_all, Forall_forall.
    intros c _. apply not_elem_of_nil.
  - cbn [forLoop]. cbv zeta.
    rewrite (splice_first_NoDup arr (leftmost + i) Hnd).
    rewrite IH by (by apply NoDup_filter).
    rewrite list_filter_filter, seqZ_step, fmap_cons.
    apply list_filter_iff. intros c. rewrite not_elem_of_cons. tauto.
Qed.

Lemma showColumns_filter (leftmost : Z) (headerColspan : option Z) (arr : list Z) :
  NoDup arr ->
  showColumns leftmost headerColspan arr
  = filter (fun c => c ∉ ((fun j => leftmost + j)
                            <$> match headerColspan with
                                | Some colspan => seqZ 1 (colspan - 1)
                                | None => []
                                end)) arr.
Proof.
  intros Hnd. unfold showColumns. destruct headerColspan as [colspan|].
  - unfold forRange. by rewrite showLoop_filter, seqZ_to_nat.
  - symmetry. apply filter_keeps_all, Forall_forall.
    intros c _. apply not_elem_of_nil.
Qed.

Lemma showColumns_twice (leftmost : Z) (headerColspan : option Z) (arr : list Z) :
  NoDup arr ->
  showColumns leftmost headerColspan (showColumns leftmost headerColspan arr)
  = showColumns leftmost headerColspan arr.
Proof.
  intros Hnd.
  rewrite (showColumns_filter leftmost headerColspan arr Hnd).
  rewrite showColumns_filter by (by apply NoDup_filter).
  apply list_filter_filter_l. done.
Qed.

Lemma hideColumns_twice (hidden : list Z) (leftmost first : Z)
  (headerColspan : option Z) :
  let once := hideColumns hidden leftmost first headerColspan hidden in
  hideColumns once leftmost first headerColspan once = once.
Proof.
  intros once. rewrite hideColumns_appends.
  rewrite filter_drops_all; [apply app_nil_r|].
  apply Forall_forall. intros c Hc Hnot. apply Hnot.
  unfold once. rewrite hideColumns_appends. apply elem_of_app.
  destruct (decide (c ∈ hidden)) as [Hin|Hout]; [by left|].
  right. by apply list_elem_of_filter.
Qed.

(** Marking again what a marking has just written changes nothing. *)
Lemma markSectionAs_twice (hot : Hot) (state : SectionState) (row col : Z)
  (cs cs1 : gmap Z (gmap Z jsval)) :
  markSectionAs hot state row col true cs = Done cs1 ->
  ensureRow row cs1 = cs1
  /\ markSectionAs hot state row col true cs1 = Done cs1.
Proof.
  intros Hmark.
  assert (holds state cs1 (row, col)) as Hself.
  { apply (markedSections_self hot row col cs1 state true cs). by left. }
  apply markSectionAs_Done_keys in Hmark as [Hkeys ->].
  split.
  - apply ensureRow_present. destruct Hself as (r & Hr & _). by exists r.
  - rewrite (markSectionAs_of_keys hot row col _ Hkeys). f_equal.
    apply applyKeys_absorb. intros k Hk. apply applyKeys_holds. by left.
Qed.

(** C8 (as stated, refuted), in the cascade scenario. (1) With real
    column 1 listed twice in the hidden-column list, a first expand of
    the top section removes one occurrence and a second expand removes
    the other. (2) After a collapse of the top section and an expand of
    its merged child, the top section still reads as collapsed, yet
    collapsing it changes both the section store and the hidden-column
    list. *)
Lemma expand_twice_differs :
  (exists p1 p2,
      expandSection cascadeHot (-2) 0 topCell (newPlugin (HCObject (Some [1; 1])))
      = Done p1
      /\ expandSection cascadeHot (-2) 0 topCell p1 = Done p2
      /\ hiddenList (hiddenColumns p1) = [1]
      /\ hiddenList (hiddenColumns p2) = []
      /\ p2 <> p1)
  /\ (exists p1 p2 p3,
         collapseSection cascadeHot (-2) 0 topCell (newPlugin (HCObject (Some [])))
         = Done p1
         /\ expandSection cascadeHot (-1) 2 mergedCell p1 = Done p2
         /\ isCollapsed (collapsedSections p2) (-2) 0 = true
         /\ collapseSection cascadeHot (-2) 0 topCell p2 = Done p3
         /\ hiddenList (hiddenColumns p2) = [1; 2]
         /\ hiddenList (hiddenColumns p3) = [1; 2; 3]
         /\ isCollapsed (collapsedSections p2) (-1) 2 = false
         /\ isCollapsed (collapsedSections p3) (-1) 2 = true).
Proof.
  split.
  - eexists. eexists.
    split; [vm_compute; reflexivity|].
    split; [vm_compute; reflexivity|].
    split; [reflexivity|]. split; [reflexivity|].
    intros H. apply (f_equal hiddenColumns) in H. simpl in H. discriminate.
  - eexists. eexists. eexists.
    split; [vm_compute; reflexivity|].
    split; [vm_compute; reflexivity|].
    split; [reflexivity|].
    split; [vm_compute; reflexivity|].
    repeat split; reflexivity.
Qed.

(** C8 (amended): with the same grid answering both clicks, a collapse
    transition applied to the state a returning collapse has produced
    returns that same state; and, when the hidden-column list holds no
    index twice, an expand transition applied to the state a returning
    expand has produced returns that same state. Both the section store
    and the hidden-column list are then unchanged by the second
    toggle. *)
Theorem toggle_twice (hot : Hot) (row col : Z) (TD : HeaderCell) (p p1 : Plugin) :
  (collapseSection hot row col TD p = Done p1 ->
   collapseSection hot row col TD p1 = Done p1)
  /\ (NoDup (hiddenList (hiddenColumns p)) ->
      expandSection hot row col TD p = Done p1 ->
      expandSection hot row col TD p1 = Done p1).
Proof.
  split.
  - intros (cs1 & childHeaders & Hmark & Hch & Hmiss & ->)%collapseSection_Done.
    apply markSectionAs_twice in Hmark as [Hrow Hmark].
    unfold collapseSection, onBeforeOnCellMouseDown, markThenToggle. simpl.
    rewrite Hrow, Hmark. unfold toggleCollapsedSection. simpl. rewrite Hch.
    unfold commitColumns. simpl. f_equal. f_equal. f_equal. f_equal.
    apply hideColumns_twice.
  - intros Hnd. unfold expandSection, onBeforeOnCellMouseDown, markThenToggle. simpl.
    destruct (markSectionAs hot expanded row col true (collapsedSections p))
      as [cs1| |] eqn:Hmark; try done.
    apply markSectionAs_twice in Hmark as [_ Hmark].
    unfold toggleCollapsedSection. simpl.
    destruct (hiddenColumns p) as [| |columns] eqn:Eh; [done| |];
      intros [= <-]; simpl; rewrite Hmark; simpl;
      unfold commitColumns; simpl; f_equal; f_equal; f_equal; f_equal;
      apply showColumns_twice; simpl in *; try done.
Qed.

Lemma toggle_twice_witness :
  collapseSection cascadeHot (-2) 0 topCell
    {| collapsedSections :=
         <[ -2 := {[ 0 := JBool true ]} ]> {[ -1 := {[ 2 := JBool true ]} ]};
       hiddenColumns := HCObject (Some [1; 2; 3]) |}
  = Done
      {| collapsedSections :=
           <[ -2 := {[ 0 := JBool true ]} ]> {[ -1 := {[ 2 := JBool true ]} ]};
         hiddenColumns := HCObject (Some [1; 2; 3]) |}
  /\ expandSection cascadeHot (-2) 0 topCell
       {| collapsedSections :=
            <[ -2 := {[ 0 := JUndefined ]} ]> {[ -1 := {[ 2 := JUndefined ]} ]};
          hiddenColumns := HCObject (Some [5]) |}
     = Done
         {| collapsedSections :=
              <[ -2 := {[ 0 := JUndefined ]} ]> {[ -1 := {[ 2 := JUndefined ]} ]};
            hiddenColumns := HCObject (Some [5]) |}.
Proof.
  split.
  - refine (proj1 (toggle_twice cascadeHot (-2) 0 topCell
                     (newPlugin (HCObject (Some []))) _) _).
    vm_compute. reflexivity.
  - refine (proj2 (toggle_twice cascadeHot (-2) 0 topCell
                     (newPlugin (HCObject (Some [5; 2]))) _) _ _).
    + simpl. apply NoDup_cons. split.
      * intros Hin%list_elem_of_singleton. lia.
      * apply NoDup_singleton.
    + vm_compute. reflexivity.
Defined.

(** ** Collapse in the cascade scenario *)

Lemma cascadeLayout_children (hot : Hot) :
  cascadeLayout hot -> getChildHeaders hot (-2) 0 (Some 4) = Some [0; 1; 2].
Proof.
  intros (Ht & Hlc & Hrows & Htop & Hn0 & Hr0 & Hr1 & Hr2 & Hn1 & Hn2 & Hoff).
  unfold getChildHeaders. rewrite Ht, Hlc, Htop.
  change (-2 + 1) with (-1). rewrite Hn0.
  change (Z.to_nat 4) with 4%nat.
  cbn [childHeaderLoop]. change (-2 + 1) with (-1). simpl.
  rewrite Hr0. simpl.
  change (0 + 1 + 1) with 2. change (0 + 1) with 1.
  rewrite Hr1, Hr2. reflexivity.
Qed.

Lemma isCollapsed_mark_self (r c : Z) (cs : gmap Z (gmap Z jsval)) :
  isCollapsed (markKey collapsed (r, c) cs) r c = true.
Proof. rewrite isCollapsed_markKey. by rewrite decide_True. Qed.

Lemma isCollapsed_mark_keeps (k : Z * Z) (r c : Z) (cs : gmap Z (gmap Z jsval)) :
  isCollapsed cs r c = true -> isCollapsed (markKey collapsed k cs) r c = true.
Proof. intros H. rewrite isCollapsed_markKey. by case_decide. Qed.

Lemma cascadeLayout_mark (hot : Hot) (cs : gmap Z (gmap Z jsval)) :
  cascadeLayout hot ->
  markSectionAs hot collapsed (-2) 0 true cs
  = Done (markKey collapsed (-1, 2) (markKey collapsed (-2, 0) cs)).
Proof.
  intros Hlayout. pose proof (cascadeLayout_children hot Hlayout) as Hch.
  destruct Hlayout as (Ht & Hlc & Hrows & Htop & Hn0 & Hr0 & Hr1 & Hr2 & Hn1 & Hn2 & Hoff).
  rewrite (markSectionAs_unfold hot _ [Some 4] [0; 1; 2] collapsed (-2) 0 cs Ht);
    [|by rewrite Hlc|exact Hch].
  unfold childrenToMark, theadHasRow. rewrite Ht, Hlc, Hrows.
  change (-2 + 1) with (-1). change (2 + -2 + 1) with 1.
  simpl. rewrite Hn1, Hn2. simpl.
  rewrite (markSectionAs_leaf hot _ [Some 1; Some 1; Some 2] collapsed (-1) 2 _ Ht);
    [reflexivity | by rewrite Hlc | by rewrite Hlc].
Qed.

(** C2: in every grid laid out as the cascade scenario says, and with no
    column hidden, collapsing the level-0 section (row [-2], position 0,
    colspan 4) returns with the hidden list [1; 2; 3] and with the merged
    child of level 1 (row [-1], position 2) marked as collapsed, as is
    the section itself. *)
Theorem cascade_collapse (hot : Hot) (TD : HeaderCell) (p : Plugin) :
  cascadeLayout hot ->
  colspanAttr TD = Some 4 -> rowIndex TD = 0 ->
  hiddenColumns p <> HCMissing -> hiddenList (hiddenColumns p) = [] ->
  exists p1,
    collapseSection hot (-2) 0 TD p = Done p1
    /\ hiddenList (hiddenColumns p1) = [1; 2; 3]
    /\ isCollapsed (collapsedSections p1) (-1) 2 = true
    /\ isCollapsed (collapsedSections p1) (-2) 0 = true.
Proof.
  intros Hlayout Hspan Hrow Hset Hnone.
  pose proof (cascadeLayout_children hot Hlayout) as Hch.
  unfold collapseSection, onBeforeOnCellMouseDown, markThenToggle. simpl.
  rewrite (cascadeLayout_mark hot _ Hlayout).
  destruct Hlayout as (Ht & Hlc & Hrows & Htop & Hn0 & Hr0 & Hr1 & Hr2 & Hn1 & Hn2 & Hoff).
  unfold toggleCollapsedSection. simpl.
  rewrite Hspan, Hch, Hrow, Hrows.
  change (2 - 0 - 1) with 1. rewrite Hoff.
  destruct (hiddenColumns p) as [| |[l|]]; [done| | |];
    simpl in Hnone; subst;
    (eexists; split; [reflexivity|]; split; [reflexivity|]; simpl; split;
     [apply (isCollapsed_mark_self (-1) 2)
     |apply (isCollapsed_mark_keeps (-1, 2)), (isCollapsed_mark_self (-2) 0)]).
Qed.

Lemma cascade_collapse_witness :
  exists p1,
    collapseSection cascadeHot (-2) 0 topCell (newPlugin (HCObject (Some []))) = Done p1
    /\ hiddenList (hiddenColumns p1) = [1; 2; 3]
    /\ isCollapsed (collapsedSections p1) (-1) 2 = true
    /\ isCollapsed (collapsedSections p1) (-2) 0 = true.
Proof.
  apply (cascade_collapse cascadeHot topCell (newPlugin (HCObject (Some [])))).
  - unfold cascadeLayout. repeat split; reflexivity.
  - reflexivity.
  - reflexivity.
  - discriminate.
  - reflexivity.
Defined.

(** * Further properties of the plugin's methods *)

(** ** The result of [getChildHeaders] *)

Lemma childHeaderLoop_elements (hot : Hot) (fuel : nat) (lvl : option ColspanLevel)
  (row start i colspan : Z) (range : list Z) (x : Z) :
  x ∈ childHeaderLoop hot fuel lvl row start i colspan range ->
  x ∈ range
  \/ exists j, i <= j < start + colspan
               /\ x = nestedColumnIndexToRealIndex hot (row + 1) j.
Proof.
  revert i colspan range.
  induction fuel as [|fuel IH]; intros i colspan range; simpl; [by left|].
  destruct (Z.ltb_spec i (start + colspan)) as [Hlt|]; [|by left].
  intros Hx. apply IH in Hx as [Hx | (j & Hj & ->)].
  - destruct (indexOf range (nestedColumnIndexToRealIndex hot (row + 1) i) =? -1);
      [|by left].
    apply elem_of_app in Hx as [Hx | Hx%list_elem_of_singleton]; [by left|].
    right. exists i. split; [lia | done].
  - right. exists j. split; [|done].
    destruct lvl as [l|]; [|lia].
    destruct (colspanAt l i) as [c|]; [|lia].
    destruct (Z.ltb_spec 1 c); lia.
Qed.

Lemma childHeaderLoop_prefix (hot : Hot) (fuel : nat) (lvl : option ColspanLevel)
  (row start i colspan : Z) (range : list Z) :
  exists more, childHeaderLoop hot fuel lvl row start i colspan range = range ++ more.
Proof.
  revert i colspan range.
  induction fuel as [|fuel IH]; intros i colspan range; simpl.
  - exists []. by rewrite app_nil_r.
  - destruct (i <? start + colspan); [|exists []; by rewrite app_nil_r].
    destruct (indexOf range (nestedColumnIndexToRealIndex hot (row + 1) i) =? -1).
    + edestruct IH as [more ->]. eexists. by rewrite <- app_assoc.
    + apply IH.
Qed.

(** X1: whatever the colspan table and the translations hold, the list
    returned by [getChildHeaders] has no index twice, has at most
    [colspan] entries (none when [colspan] is undefined), consists of
    real indices of child-level positions within [colspan] positions of
    the translated start, and, when [colspan] is at least 1, starts with
    the real index of the translated start position itself. *)
Theorem getChildHeaders_shape (hot : Hot) (row col : Z) (colspan : option Z)
  (childHeaders : list Z) :
  getChildHeaders hot row col colspan = Some childHeaders ->
  let start :=
    realColumnIndexToNestedIndex hot (row + 1)
      (nestedColumnIndexToRealIndex hot row col) in
  NoDup childHeaders
  /\ match colspan with
     | Some c => (length childHeaders <= Z.to_nat c)%nat
     | None => childHeaders = []
     end
  /\ (forall x, x ∈ childHeaders ->
        exists c j, colspan = Some c /\ start <= j < start + c
                    /\ x = nestedColumnIndexToRealIndex hot (row + 1) j)
  /\ (forall c, colspan = Some c -> 1 <= c ->
        head childHeaders = Some (nestedColumnIndexToRealIndex hot (row + 1) start)).
Proof.
  unfold getChildHeaders.
  destruct (colspanSettings hot) as [t|]; [|done].
  destruct colspan as [c|]; intros [= <-]; cbv zeta.
  - split; [apply childHeaderLoop_NoDup, NoDup_nil_2|].
    split.
    { etransitivity; [apply childHeaderLoop_length|]. simpl. lia. }
    split.
    + intros x Hx. apply childHeaderLoop_elements in Hx as [Hx | (j & Hj & ->)].
      * by apply not_elem_of_nil in Hx.
      * by exists c, j.
    + intros c' [= <-] Hc.
      destruct (Z.to_nat c) as [|fuel] eqn:Hfuel; [lia|].
      cbn [childHeaderLoop].
      destruct (Z.ltb_spec
                  (realColumnIndexToNestedIndex hot (row + 1)
                     (nestedColumnIndexToRealIndex hot row col))
                  (realColumnIndexToNestedIndex hot (row + 1)
                     (nestedColumnIndexToRealIndex hot row col) + c)); [|lia].
      simpl indexOf. simpl app.
      edestruct childHeaderLoop_prefix as [more ->]. done.
  - split; [apply NoDup_nil_2|]. split; [done|]. split.
    + by intros x Hx%not_elem_of_nil.
    + done.
Qed.

Lemma getChildHeaders_shape_witness :
  NoDup [0; 2]
  /\ (length [0; 2] <= Z.to_nat 4)%nat
  /\ (forall x, x ∈ [0; 2] ->
        exists c j, Some 4 = Some c /\ 0 <= j < 0 + c
                    /\ x = nestedColumnIndexToRealIndex mergedFirstHot (-2 + 1) j)
  /\ (forall c, Some 4 = Some c -> 1 <= c ->
        head [0; 2] = Some (nestedColumnIndexToRealIndex mergedFirstHot (-2 + 1) 0)).
Proof.
  apply (getChildHeaders_shape mergedFirstHot (-2) 0 (Some 4) [0; 2]).
  reflexivity.
Defined.

Lemma childHeaderLoop_plain (hot : Hot) (lvl : option ColspanLevel)
  (row start colspan : Z) (fuel : nat) :
  forall i range,
    start + colspan - i = Z.of_nat fuel ->
    (forall l j, lvl = Some l -> i <= j < start + colspan ->
                 gt1 (colspanAt l j) = false) ->
    NoDup (range ++ (nestedColumnIndexToRealIndex hot (row + 1)
                       <$> seqZ i (Z.of_nat fuel))) ->
    childHeaderLoop hot fuel lvl row start i colspan range
    = range ++ (nestedColumnIndexToRealIndex hot (row + 1) <$> seqZ i (Z.of_nat fuel)).
Proof.
  induction fuel as [|fuel IH]; intros i range Hfuel Hplain Hnd.
  - simpl. by rewrite app_nil_r.
  - cbn [childHeaderLoop].
    destruct (Z.ltb_spec i (start + colspan)); [|lia].
    rewrite seqZ_step, fmap_cons in *.
    assert (match lvl with
            | Some l =>
              match colspanAt l i with
              | Some c => if 1 <? c then colspan - c else colspan
              | None => colspan
              end
            | None => colspan
            end = colspan) as ->.
    { destruct lvl as [l|]; [|done].
      specialize (Hplain l i eq_refl ltac:(lia)). unfold gt1 in Hplain.
      destruct (colspanAt l i) as [c|]; [|done]. by rewrite Hplain. }
    assert (nestedColumnIndexToRealIndex hot (row + 1) i ∉ range) as Hfresh.
    { apply NoDup_app in Hnd as (_ & Hdisj & _). intros Hin.
      apply (Hdisj _ Hin). left. }
    apply indexOf_absent in Hfresh. rewrite Hfresh. simpl.
    rewrite IH.
    + by rewrite <- app_assoc.
    + lia.
    + intros l j Hl Hj. apply (Hplain l j Hl). lia.
    + by rewrite <- app_assoc.
Qed.

(** X2: when no walked position of the child level has a colspan above
    1 (or the child level has no record) and the walked positions
    translate to distinct real indices, [getChildHeaders] returns exactly
    the real indices of the [colspan] positions from the translated
    start on, in order. *)
Theorem getChildHeaders_plain (hot : Hot) (t : ColspanTable) (row col colspan : Z) :
  let start :=
    realColumnIndexToNestedIndex hot (row + 1)
      (nestedColumnIndexToRealIndex hot row col) in
  colspanSettings hot = Some t ->
  (forall l j, levelAt t (columnHeaderLevelCount hot + row + 1) = Some l ->
               start <= j < start + colspan -> gt1 (colspanAt l j) = false) ->
  NoDup (nestedColumnIndexToRealIndex hot (row + 1) <$> seqZ start colspan) ->
  getChildHeaders hot row col (Some colspan)
  = Some (nestedColumnIndexToRealIndex hot (row + 1) <$> seqZ start colspan).
Proof.
  intros start Ht Hplain Hnd. unfold getChildHeaders. rewrite Ht. f_equal.
  fold start.
  destruct (Z.le_gt_cases colspan 0) as [Hc|Hc].
  - rewrite seqZ_nil by lia. by replace (Z.to_nat colspan) with 0%nat by lia.
  - rewrite <- (seqZ_to_nat start colspan) in *.
    rewrite childHeaderLoop_plain; [done | lia | | done].
    intros l j Hl Hj. apply (Hplain l j Hl). lia.
Qed.

Lemma getChildHeaders_plain_witness :
  getChildHeaders pairHot (-2) 0 (Some 2)
  = Some (nestedColumnIndexToRealIndex pairHot (-2 + 1) <$> seqZ 0 2).
Proof.
  apply (getChildHeaders_plain pairHot [Some [Some 2]; Some [Some 1; Some 1]] (-2) 0 2).
  - reflexivity.
  - intros l j [= <-] Hj. change (0 <= j < 2) in Hj.
    assert (j = 0 \/ j = 1) as [-> | ->] by lia; reflexivity.
  - vm_compute. apply NoDup_cons. split.
    + intros Hin%list_elem_of_singleton. discriminate.
    + apply NoDup_singleton.
Defined.

(** ** What a marking writes *)

Lemma slot_applyKeys (state : SectionState) (keys : list (Z * Z)) (r c : Z)
  (cs : gmap Z (gmap Z jsval)) :
  slot (applyKeys state keys cs) r c
  = if decide ((r, c) ∈ keys) then Some (stateValue state) else slot cs r c.
Proof.
  induction keys as [|k keys IH] using rev_ind.
  - rewrite decide_False; [done | apply not_elem_of_nil].
  - rewrite applyKeys_snoc, slot_markKey, IH.
    destruct (decide ((r, c) = k)) as [<-|Hk].
    + rewrite decide_True; [done|]. apply elem_of_app. right. left.
    + destruct (decide ((r, c) ∈ keys)) as [Hin|Hin].
      * rewrite decide_True; [done|]. apply elem_of_app. by left.
      * rewrite decide_False; [done|]. intros Hin'.
        apply elem_of_app in Hin' as [?|Hin']; [done|].
        apply list_elem_of_singleton in Hin'. done.
Qed.

Lemma applyKeys_row (state : SectionState) (keys : list (Z * Z)) (r : Z)
  (cs : gmap Z (gmap Z jsval)) :
  is_Some (applyKeys state keys cs !! r) <-> is_Some (cs !! r) \/ r ∈ keys.*1.
Proof.
  induction keys as [|k keys IH] using rev_ind.
  - simpl. split; [by left | intros [H|H]; [done | by apply not_elem_of_nil in H]].
  - rewrite applyKeys_snoc, markKey_lookup, fmap_app, elem_of_app. simpl.
    rewrite list_elem_of_singleton.
    case_decide as E.
    + split; [intros _; right; by right | by eexists].
    + rewrite IH. tauto.
Qed.

Lemma store_ext (a b : gmap Z (gmap Z jsval)) :
  (forall r, is_Some (a !! r) <-> is_Some (b !! r)) ->
  (forall r c, slot a r c = slot b r c) ->
  a = b.
Proof.
  intros Hrows Hslots. apply map_eq. intros r.
  specialize (Hrows r). pose proof (Hslots r) as Hr. unfold slot in Hr.
  destruct (a !! r) as [x|], (b !! r) as [y|].
  - f_equal. apply map_eq. exact Hr.
  - destruct Hrows as [H _]. by destruct H.
  - destruct Hrows as [_ H]. by destruct H.
  - done.
Qed.

Lemma markSectionAs_written (hot : Hot) (state : SectionState) (row col : Z)
  (cs cs' : gmap Z (gmap Z jsval)) :
  endsWith (markSectionAs hot state row col true cs) cs' ->
  cs' = applyKeys state (markedSections hot row col) cs.
Proof.
  rewrite markSectionAs_sim. unfold markedSections.
  destruct (markedSections_rec hot (markFuel hot) row col true []) as [w|w|];
    simpl; intros [H|H]; by inversion H.
Qed.

Section Written.

Variable hot : Hot.

Lemma markedSections_rec_deeper (fuel : nat) (row col : Z) (recursive : bool)
  (written : list (Z * Z)) :
  outcomeAll
    (fun w => forall k, k ∈ w ->
                        k ∈ written \/ k = (row, col) \/ (row < k.1 /\ spans hot k))
    (markedSections_rec hot fuel row col recursive written).
Proof.
  revert row col recursive written.
  assert (forall row col (written : list (Z * Z)) k,
             k ∈ written ++ [(row, col)] ->
             k ∈ written \/ k = (row, col) \/ (row < k.1 /\ spans hot k)) as Hstart.
  { intros row col written k [Hk | Hk%list_elem_of_singleton]%elem_of_app; auto. }
  induction fuel as [|fuel IH]; intros row col recursive written;
    cbn [markedSections_rec];
    (destruct recursive; [|simpl; auto]);
    (destruct (colspanSettings hot) as [t|] eqn:Et; [|simpl; auto]);
    (destruct (levelAt t (columnHeaderLevelCount hot + row)) as [level|];
       [|simpl; auto]);
    (destruct (getChildHeaders hot row col (colspanAt level col)) as [childHeaders|];
       [|simpl; auto]);
    (apply forLoopM_all; [|auto]);
    intros j w Hw;
    (destruct (levelAt t (columnHeaderLevelCount hot + row + 1)) as [childLevel|] eqn:Ec;
       [|simpl; auto]);
    (destruct (gt1 _) eqn:Espan; [|simpl; auto]);
    (destruct (theadHasRow hot _); [|simpl; auto]).
  - done.
  - eapply outcomeAll_impl; [|apply IH].
    intros w' Hw' k Hk. apply Hw' in Hk as [Hk | [-> | [Hrow Hk]]].
    + by apply Hw.
    + right. right. split; [simpl; lia|].
      exists t, childLevel. simpl. split; [done|]. split; [|done].
      by replace (columnHeaderLevelCount hot + (row + 1))
        with (columnHeaderLevelCount hot + row + 1) by lia.
    + right. right. split; [lia | done].
Qed.

(** The sections written: the section itself and, besides it, only
    sections of deeper header levels that the colspan table records as
    spanning more than one column. *)
Lemma markedSections_deeper (row col : Z) :
  (row, col) ∈ markedSections hot row col
  /\ forall k, k ∈ markedSections hot row col ->
               k = (row, col)
               \/ (row < k.1
                   /\ exists t lvl,
                        colspanSettings hot = Some t
                        /\ levelAt t (columnHeaderLevelCount hot + k.1) = Some lvl
                        /\ gt1 (colspanAt lvl k.2) = true).
Proof.
  unfold markedSections.
  pose proof (markedSections_rec_grows hot (markFuel hot) row col true []) as Hgrow.
  pose proof (markedSections_rec_deeper (markFuel hot) row col true []) as Hdeep.
  destruct (markSectionAs_total hot collapsed row col true ∅) as [cs' Hend].
  rewrite markSectionAs_sim in Hend.
  destruct (markedSections_rec hot (markFuel hot) row col true []) as [w|w|];
    simpl in *.
  - split; [apply Hgrow; left|].
    intros k Hk. apply Hdeep in Hk as [Hk | Hk]; [by apply not_elem_of_nil in Hk | done].
  - split; [apply Hgrow; left|].
    intros k Hk. apply Hdeep in Hk as [Hk | Hk]; [by apply not_elem_of_nil in Hk | done].
  - by destruct Hend.
Qed.

End Written.

(** X3: when a recursive marking ends, normally or by an exception, the
    slot of the section holds the value of the state ([true] for
    collapsed, [undefined] for expanded); every slot either is as before
    or holds that value; a slot that has changed belongs to the section
    itself or to a section of a deeper header level that the colspan
    table records as spanning more than one column; and no row of the
    store has been removed. *)
Theorem markSectionAs_frame (hot : Hot) (state : SectionState) (row col : Z)
  (cs cs' : gmap Z (gmap Z jsval)) :
  endsWith (markSectionAs hot state row col true cs) cs' ->
  slot cs' row col = Some (stateValue state)
  /\ (forall r c,
         slot cs' r c = slot cs r c \/ slot cs' r c = Some (stateValue state))
  /\ (forall r c,
         slot cs' r c <> slot cs r c ->
         (r, c) = (row, col)
         \/ (row < r
             /\ exists t lvl,
                  colspanSettings hot = Some t
                  /\ levelAt t (columnHeaderLevelCount hot + r) = Some lvl
                  /\ gt1 (colspanAt lvl c) = true))
  /\ (forall r, is_Some (cs !! r) -> is_Some (cs' !! r)).
Proof.
  intros ->%markSectionAs_written.
  destruct (markedSections_deeper hot row col) as [Hself Hdeep].
  split; [|split; [|split]].
  - rewrite slot_applyKeys. by rewrite decide_True.
  - intros r c. rewrite slot_applyKeys. case_decide; auto.
  - intros r c. rewrite slot_applyKeys. case_decide as Hk; [|done].
    intros _. apply (Hdeep (r, c) Hk).
  - intros r Hr. apply applyKeys_row. by left.
Qed.

Lemma markSectionAs_frame_witness :
  slot (<[ -2 := {[ 0 := JBool true ]} ]> {[ -1 := {[ 2 := JBool true ]} ]}) (-2) 0
  = Some (JBool true)
  /\ slot (<[ -2 := {[ 0 := JBool true ]} ]> {[ -1 := {[ 2 := JBool true ]} ]}) (-1) 2
     <> slot ∅ (-1) 2.
Proof.
  destruct (markSectionAs_frame cascadeHot collapsed (-2) 0 ∅
              (<[ -2 := {[ 0 := JBool true ]} ]> {[ -1 := {[ 2 := JBool true ]} ]}))
    as (Hself & _ & _ & _).
  - left. vm_compute. reflexivity.
  - split; [exact Hself|]. vm_compute. discriminate.
Defined.

(** X4: a marking with [recursive] unset never raises, whatever the grid
    (even without any nested-headers setting), and changes the slot of
    the section only, which then holds the value of the state. *)
Theorem markSectionAs_flat (hot : Hot) (state : SectionState) (row col : Z)
  (cs : gmap Z (gmap Z jsval)) :
  exists cs',
    markSectionAs hot state row col false cs = Done cs'
    /\ (forall r c,
           slot cs' r c
           = if decide ((r, c) = (row, col)) then Some (stateValue state)
             else slot cs r c)
    /\ (forall r, r <> row -> cs' !! r = cs !! r).
Proof.
  exists (markKey state (row, col) cs). split; [|split].
  - unfold markSectionAs. by destruct (markFuel hot).
  - intros r c. apply slot_markKey.
  - intros r Hr. rewrite markKey_lookup. by rewrite decide_False.
Qed.

(** X5: a recursive marking overrides an earlier recursive marking of the
    same section completely: marking with [state1] and then with
    [state2] leaves the store that marking with [state2] alone leaves
    (the same grid answering each call, each call ending normally or by
    an exception). In particular marking expanded after marking
    collapsed equals marking expanded. *)
Theorem markSectionAs_overrides (hot : Hot) (state1 state2 : SectionState)
  (row col : Z) (cs cs1 cs2 cs3 : gmap Z (gmap Z jsval)) :
  endsWith (markSectionAs hot state1 row col true cs) cs1 ->
  endsWith (markSectionAs hot state2 row col true cs1) cs2 ->
  endsWith (markSectionAs hot state2 row col true cs) cs3 ->
  cs2 = cs3.
Proof.
  intros ->%markSectionAs_written ->%markSectionAs_written ->%markSectionAs_written.
  apply store_ext.
  - intros r. rewrite !applyKeys_row. tauto.
  - intros r c. rewrite !slot_applyKeys. by case_decide.
Qed.

Lemma markSectionAs_overrides_witness :
  (<[ -2 := {[ 0 := JUndefined ]} ]> {[ -1 := {[ 2 := JUndefined ]} ]}
     : gmap Z (gmap Z jsval))
  = <[ -2 := {[ 0 := JUndefined ]} ]> {[ -1 := {[ 2 := JUndefined ]} ]}.
Proof.
  apply (markSectionAs_overrides cascadeHot collapsed expanded (-2) 0 ∅
           (<[ -2 := {[ 0 := JBool true ]} ]> {[ -1 := {[ 2 := JBool true ]} ]})).
  - left. vm_compute. reflexivity.
  - left. vm_compute. reflexivity.
  - left. vm_compute. reflexivity.
Defined.

(** ** What a toggle does to the hidden-column list *)

Lemma indexOf_lookup (l : list Z) (x : Z) :
  -1 < indexOf l x -> l !! Z.to_nat (indexOf l x) = Some x.
Proof.
  induction l as [|y l IH]; simpl; [lia|].
  destruct (Z.eqb_spec y x) as [->|Hne]; [done|].
  pose proof (indexOf_lower l x).
  destruct (Z.eqb_spec (indexOf l x) (-1)) as [E|E]; [lia|].
  intros _. replace (Z.to_nat (indexOf l x + 1)) with (S (Z.to_nat (indexOf l x))) by lia.
  simpl. apply IH. lia.
Qed.

Lemma filter_delete_rejected (P : Z -> Prop) `{forall x, Decision (P x)}
  (l : list Z) (k : nat) (x : Z) :
  l !! k = Some x -> ~ P x -> filter P (delete k l) = filter P l.
Proof.
  revert k. induction l as [|y l IH]; intros [|k] Hk Hx; simpl in *; try done.
  - injection Hk as ->. by rewrite filter_cons_False.
  - rewrite !filter_cons. by rewrite (IH k Hk Hx).
Qed.

Lemma showLoop_removes (leftmost : Z) (n : nat) (i : Z) (arr : list Z) :
  let result :=
    forLoop n i
      (fun i arr =>
         let colToHide := leftmost + i in
         let foundIndex := indexOf arr colToHide in
         if -1 <? foundIndex then delete (Z.to_nat foundIndex) arr else arr) arr in
  result `sublist_of` arr
  /\ filter (fun c => c ∉ ((fun j => leftmost + j) <$> seqZ i (Z.of_nat n))) result
     = filter (fun c => c ∉ ((fun j => leftmost + j) <$> seqZ i (Z.of_nat n))) arr.
Proof.
  revert i arr. induction n as [|n IH]; intros i arr; [done|].
  cbn [forLoop]. cbv zeta.
  set (arr' := if -1 <? indexOf arr (leftmost + i)
               then delete (Z.to_nat (indexOf arr (leftmost + i))) arr else arr).
  destruct (IH (i + 1) arr') as [Hsub Hkeep]. cbv zeta in Hsub, Hkeep.
  assert (arr' `sublist_of` arr) as Hsub'.
  { unfold arr'. destruct (-1 <? indexOf arr (leftmost + i)); [|done].
    apply sublist_delete. }
  split; [by etransitivity|].
  rewrite seqZ_step, fmap_cons.
  assert (forall l : list Z,
             filter (fun c => c ∉ (leftmost + i)
                                  :: ((fun j => leftmost + j) <$> seqZ (i + 1) (Z.of_nat n)))
               l
             = filter (fun c => c <> leftmost + i)
                 (filter (fun c => c ∉ ((fun j => leftmost + j)
                                          <$> seqZ (i + 1) (Z.of_nat n))) l)) as Hsplit.
  { intros l. rewrite list_filter_filter. apply list_filter_iff.
    intros c. rewrite not_elem_of_cons. tauto. }
  rewrite !Hsplit, Hkeep. rewrite <- !Hsplit.
  unfold arr'. destruct (Z.ltb_spec (-1) (indexOf arr (leftmost + i))) as [Hfound|]; [|done].
  apply (filter_delete_rejected _ _ _ (leftmost + i)).
  - by apply indexOf_lookup.
  - intros Hnot. apply Hnot. left.
Qed.

(** X6: a returning ['expand'] toggle never adds a column and never
    reorders the list: the new hidden-column list is a sublist of the
    old one; the columns outside the offsets 1 through [colspan - 1] of
    the section are all kept; when the old list holds no index twice,
    the new list is exactly the old one without the columns at those
    offsets. The section store is not touched. *)
Theorem expand_only_removes (hot : Hot) (row col : Z) (TD : HeaderCell)
  (p p1 : Plugin) :
  toggleCollapsedSection hot row col TD expand p = Done p1 ->
  let revealed :=
    (fun i => col + getColspanOffset hot col (theadRows hot - rowIndex TD - 1) + i)
      <$> match colspanAttr TD with
          | Some colspan => seqZ 1 (colspan - 1)
          | None => []
          end in
  collapsedSections p1 = collapsedSections p
  /\ hiddenList (hiddenColumns p1) `sublist_of` hiddenList (hiddenColumns p)
  /\ filter (fun c => c ∉ revealed) (hiddenList (hiddenColumns p1))
     = filter (fun c => c ∉ revealed) (hiddenList (hiddenColumns p))
  /\ (NoDup (hiddenList (hiddenColumns p)) ->
      hiddenList (hiddenColumns p1)
      = filter (fun c => c ∉ revealed) (hiddenList (hiddenColumns p))).
Proof.
  unfold toggleCollapsedSection.
  assert (forall l : list Z,
             let result :=
               showColumns
                 (col + getColspanOffset hot col (theadRows hot - rowIndex TD - 1))
                 (colspanAttr TD) l in
             let revealed :=
               (fun i => col + getColspanOffset hot col (theadRows hot - rowIndex TD - 1)
                         + i)
                 <$> match colspanAttr TD with
                     | Some colspan => seqZ 1 (colspan - 1)
                     | None => []
                     end in
             result `sublist_of` l
             /\ filter (fun c => c ∉ revealed) result = filter (fun c => c ∉ revealed) l
             /\ (NoDup l -> result = filter (fun c => c ∉ revealed) l)) as Hshow.
  { intros l result revealed. split; [|split].
    - unfold result, showColumns. destruct (colspanAttr TD) as [colspan|]; [|done].
      apply showLoop_removes.
    - unfold result, revealed, showColumns.
      destruct (colspanAttr TD) as [colspan|]; [|done].
      unfold forRange. rewrite <- (seqZ_to_nat 1 (colspan - 1)).
      apply showLoop_removes.
    - intros Hnd. by apply showColumns_filter. }
  destruct (hiddenColumns p) as [| |columns] eqn:Eh; [done| |];
    intros [= <-]; cbv zeta; simpl;
    (split; [done|]); apply Hshow.
Qed.

Lemma expand_only_removes_witness :
  hiddenList (HCObject (Some [7; 1])) `sublist_of` [7; 1; 2; 1; 3]
  /\ filter (fun c => c ∉ ((fun i => 0 + 0 + i) <$> seqZ 1 (4 - 1))) [7; 1]
     = filter (fun c => c ∉ ((fun i => 0 + 0 + i) <$> seqZ 1 (4 - 1))) [7; 1; 2; 1; 3].
Proof.
  destruct (expand_only_removes cascadeHot (-2) 0 topCell
              {| collapsedSections := ∅; hiddenColumns := HCObject (Some [7; 1; 2; 1; 3]) |}
              {| collapsedSections := ∅; hiddenColumns := HCObject (Some [7; 1]) |})
    as (_ & Hsub & Hkeep & _).
  - vm_compute. reflexivity.
  - split; [exact Hsub | exact Hkeep].
Defined.

Lemma hideColumns_NoDup (hidden : list Z) (leftmost first : Z)
  (headerColspan : option Z) :
  NoDup hidden -> NoDup (hideColumns hidden leftmost first headerColspan hidden).
Proof.
  intros Hnd. rewrite hideColumns_appends. apply NoDup_app.
  split; [done|]. split.
  - intros x Hx Hx'. apply list_elem_of_filter in Hx' as [Hnot _]. done.
  - apply NoDup_filter.
    destruct headerColspan as [colspan|]; [|apply NoDup_nil_2].
    apply NoDup_fmap_2_strong; [|apply NoDup_seqZ].
    intros a b _ _ Hab. lia.
Qed.

Lemma showColumns_NoDup (leftmost : Z) (headerColspan : option Z) (arr : list Z) :
  NoDup arr -> NoDup (showColumns leftmost headerColspan arr).
Proof.
  intros Hnd. rewrite showColumns_filter by done. by apply NoDup_filter.
Qed.

Lemma toggle_keeps (hot : Hot) (P : list Z -> Prop) (row col : Z) (TD : HeaderCell)
  (action : ToggleAction) (p : Plugin) :
  (forall leftmost first,
      P (hiddenList (hiddenColumns p)) ->
      P (hideColumns (hiddenList (hiddenColumns p)) leftmost first (colspanAttr TD)
           (hiddenList (hiddenColumns p)))
      /\ P (showColumns leftmost (colspanAttr TD) (hiddenList (hiddenColumns p)))) ->
  P (hiddenList (hiddenColumns p)) ->
  outcomeAll (fun p' => P (hiddenList (hiddenColumns p')))
    (toggleCollapsedSection hot row col TD action p).
Proof.
  intros Hstep Hp. unfold toggleCollapsedSection.
  destruct (hiddenColumns p) as [| |columns] eqn:Eh.
  - simpl. by rewrite Eh.
  - destruct action.
    + destruct (getChildHeaders hot row col (colspanAttr TD)) as [childHeaders|]; simpl.
      * by apply Hstep.
      * by rewrite Eh.
    + simpl. by apply Hstep.
  - destruct action.
    + destruct (getChildHeaders hot row col (colspanAttr TD)) as [childHeaders|]; simpl.
      * by apply Hstep.
      * by rewrite Eh.
    + simpl. by apply Hstep.
Qed.

Lemma click_keeps (hot : Hot) (P : list Z -> Prop) (target : EventTarget)
  (row col : Z) (TD : HeaderCell) (p : Plugin) :
  (forall l leftmost first,
      P l ->
      P (hideColumns l leftmost first (colspanAttr TD) l)
      /\ P (showColumns leftmost (colspanAttr TD) l)) ->
  P (hiddenList (hiddenColumns p)) ->
  outcomeAll (fun p' => P (hiddenList (hiddenColumns p')))
    (onBeforeOnCellMouseDown hot target row col TD p).
Proof.
  intros Hstep Hp. unfold onBeforeOnCellMouseDown, markThenToggle.
  destruct (isCollapsibleIndicator target); [|done].
  destruct (hasExpandedClass target).
  - simpl.
    destruct (markSectionAs hot collapsed row col true _) as [cs| |]; [|done|done].
    apply toggle_keeps; [|done]. intros leftmost first. apply Hstep.
  - destruct (hasCollapsedClass target); [|done].
    destruct (markSectionAs hot expanded row col true _) as [cs| |]; [|done|done].
    apply toggle_keeps; [|done]. intros leftmost first. apply Hstep.
Qed.

(** X7: a click on a header cell, whatever its target and whether the
    handler returns or raises, keeps the hidden-column list free of
    duplicates if it was so before: a collapse never hides a column
    twice and an expand creates no duplicate. *)
Theorem click_keeps_NoDup (hot : Hot) (target : EventTarget) (row col : Z)
  (TD : HeaderCell) (p p' : Plugin) :
  endsWith (onBeforeOnCellMouseDown hot target row col TD p) p' ->
  NoDup (hiddenList (hiddenColumns p)) ->
  NoDup (hiddenList (hiddenColumns p')).
Proof.
  intros Hend Hnd.
  eapply (outcomeAll_endsWith (fun p' => NoDup (hiddenList (hiddenColumns p'))));
    [|exact Hend].
  apply click_keeps; [|done].
  intros l leftmost first Hl. split.
  - by apply hideColumns_NoDup.
  - by apply showColumns_NoDup.
Qed.

Lemma click_keeps_NoDup_witness : NoDup [3; 1; 2].
Proof.
  apply (click_keeps_NoDup cascadeHot
           {| isCollapsibleIndicator := true; hasExpandedClass := true;
              hasCollapsedClass := false |} (-2) 0 topCell
           (newPlugin (HCObject (Some [3])))
           {| collapsedSections :=
                <[ -2 := {[ 0 := JBool true ]} ]> {[ -1 := {[ 2 := JBool true ]} ]};
              hiddenColumns := HCObject (Some [3; 1; 2]) |}).
  - left. vm_compute. reflexivity.
  - apply NoDup_singleton.
Defined.

(** X8: a click on a header cell whose colspan attribute is absent, or
    at most 1, leaves the hidden-column list as it was, whatever the
    target and the grid, whether the handler returns or raises. *)
Theorem click_narrow_cell (hot : Hot) (target : EventTarget) (row col : Z)
  (TD : HeaderCell) (p p' : Plugin) :
  endsWith (onBeforeOnCellMouseDown hot target row col TD p) p' ->
  (forall colspan, colspanAttr TD = Some colspan -> colspan <= 1) ->
  hiddenList (hiddenColumns p') = hiddenList (hiddenColumns p).
Proof.
  intros Hend Hnarrow.
  assert (forall leftmost childHeaders (l : list Z),
             getChildHeaders hot row col (colspanAttr TD) = Some childHeaders ->
             hideColumns l leftmost (firstElementColspan childHeaders) (colspanAttr TD) l
             = l) as Hhide.
  { intros leftmost childHeaders l Hch. unfold hideColumns.
    destruct (colspanAttr TD) as [colspan|] eqn:Espan; [|done].
    specialize (Hnarrow colspan eq_refl).
    assert (length childHeaders <= 1)%nat as Hlen.
    { unfold getChildHeaders in Hch.
      destruct (colspanSettings hot); [|done]. injection Hch as <-.
      etransitivity; [apply childHeaderLoop_length|]. simpl. lia. }
    unfold firstElementColspan.
    rewrite (lookup_ge_None_2 childHeaders 1) by lia.
    unfold forRange. by replace (Z.to_nat (colspan - 1)) with 0%nat by lia. }
  assert (forall leftmost (l : list Z), showColumns leftmost (colspanAttr TD) l = l)
    as Hshow.
  { intros leftmost l. unfold showColumns.
    destruct (colspanAttr TD) as [colspan|] eqn:Espan; [|done].
    specialize (Hnarrow colspan eq_refl).
    unfold forRange. by replace (Z.to_nat (colspan - 1)) with 0%nat by lia. }
  revert Hend. unfold onBeforeOnCellMouseDown, markThenToggle, toggleCollapsedSection.
  destruct (isCollapsibleIndicator target); [|by intros [[= <-]|[=]]].
  destruct (hasExpandedClass target).
  - simpl.
    destruct (markSectionAs hot collapsed row col true _) as [cs|cs|];
      [|by intros [[=]|[= <-]]|by intros [[=]|[=]]].
    simpl. destruct (hiddenColumns p) as [| |columns] eqn:Eh;
      [by intros [[=]|[= <-]]; simpl; rewrite Eh| |];
      (destruct (getChildHeaders hot row col (colspanAttr TD)) as [childHeaders|] eqn:Ech;
         [|by intros [[=]|[= <-]]; simpl; rewrite Eh]);
      intros [[= <-]|[=]]; simpl; by apply Hhide.
  - destruct (hasCollapsedClass target); [|by intros [[= <-]|[=]]].
    destruct (markSectionAs hot expanded row col true _) as [cs|cs|];
      [|by intros [[=]|[= <-]]|by intros [[=]|[=]]].
    simpl. destruct (hiddenColumns p) as [| |columns] eqn:Eh;
      [by intros [[=]|[= <-]]; simpl; rewrite Eh| |];
      intros [[= <-]|[=]]; simpl; by apply Hshow.
Qed.

Lemma click_narrow_cell_witness :
  hiddenList (HCObject (Some [5])) = hiddenList (HCObject (Some [5])).
Proof.
  apply (click_narrow_cell cascadeHot
           {| isCollapsibleIndicator := true; hasExpandedClass := true;
              hasCollapsedClass := false |} (-1) 0
           {| colspanAttr := Some 1; rowIndex := 1 |}
           {| collapsedSections := ∅; hiddenColumns := HCObject (Some [5]) |}
           {| collapsedSections := {[ -1 := {[ 0 := JBool true ]} ]};
              hiddenColumns := HCObject (Some [5]) |}).
  - left. vm_compute. reflexivity.
  - intros colspan [= <-]. lia.
Defined.

(** ** Exceptions of the mouse handler, and the indicator after a click *)

Lemma toggle_store (hot : Hot) (row col : Z) (TD : HeaderCell) (action : ToggleAction)
  (p p' : Plugin) :
  endsWith (toggleCollapsedSection hot row col TD action p) p' ->
  collapsedSections p' = collapsedSections p.
Proof.
  unfold toggleCollapsedSection.
  destruct (hiddenColumns p) as [| |columns]; [by intros [[=]|[= <-]]| |];
    (destruct action;
     [destruct (getChildHeaders hot row col (colspanAttr TD)) as [childHeaders|]|]);
    by intros [[= <-]|[= <-]].
Qed.

Lemma toggle_Thrown (hot : Hot) (row col : Z) (TD : HeaderCell) (action : ToggleAction)
  (p p' : Plugin) :
  toggleCollapsedSection hot row col TD action p = Thrown p' -> p' = p.
Proof.
  unfold toggleCollapsedSection.
  destruct (hiddenColumns p) as [| |columns]; [by intros [= <-]| |];
    (destruct action;
     [destruct (getChildHeaders hot row col (colspanAttr TD)) as [childHeaders|]|]);
    by intros [= <-].
Qed.

(** X9: when the mouse handler raises, the hidden-column setting is the
    one it found (only the section store may have been written); and
    when the hidden-column setting is absent, every click on an
    indicator that carries its state class raises. *)
Theorem click_raises (hot : Hot) (target : EventTarget) (row col : Z)
  (TD : HeaderCell) (p : Plugin) :
  (forall p', onBeforeOnCellMouseDown hot target row col TD p = Thrown p' ->
              hiddenColumns p' = hiddenColumns p)
  /\ (hiddenColumns p = HCMissing ->
      isCollapsibleIndicator target = true ->
      hasExpandedClass target || hasCollapsedClass target = true ->
      exists p', onBeforeOnCellMouseDown hot target row col TD p = Thrown p').
Proof.
  unfold onBeforeOnCellMouseDown, markThenToggle. split.
  - intros p'.
    destruct (isCollapsibleIndicator target); [|done].
    destruct (hasExpandedClass target).
    + simpl.
      destruct (markSectionAs hot collapsed row col true _) as [cs|cs|];
        [|by intros [= <-]|done].
      by intros ->%toggle_Thrown.
    + destruct (hasCollapsedClass target); [|done].
      destruct (markSectionAs hot expanded row col true _) as [cs|cs|];
        [|by intros [= <-]|done].
      by intros ->%toggle_Thrown.
  - intros Hmissing -> Hclass.
    destruct (hasExpandedClass target).
    + simpl.
      destruct (markSectionAs_total hot collapsed row col true
                  (ensureRow row (collapsedSections p))) as [cs [Hm|Hm]];
        rewrite Hm; [|by eexists].
      unfold toggleCollapsedSection. simpl. rewrite Hmissing. by eexists.
    + simpl in Hclass. rewrite Hclass.
      destruct (markSectionAs_total hot expanded row col true (collapsedSections p))
        as [cs [Hm|Hm]];
        rewrite Hm; [|by eexists].
      unfold toggleCollapsedSection. simpl. rewrite Hmissing. by eexists.
Qed.

Lemma click_raises_witness :
  hiddenColumns
    {| collapsedSections := {[ -1 := {[ 0 := JBool true ]} ]};
       hiddenColumns := HCObject (Some [5]) |}
  = hiddenColumns (newPlugin (HCObject (Some [5])))
  /\ exists p',
       onBeforeOnCellMouseDown cascadeHot
         {| isCollapsibleIndicator := true; hasExpandedClass := false;
            hasCollapsedClass := true |} (-2) 0 topCell (newPlugin HCMissing)
       = Thrown p'.
Proof.
  split.
  - apply (proj1 (click_raises topOnlyHot
                    {| isCollapsibleIndicator := true; hasExpandedClass := true;
                       hasCollapsedClass := false |} (-1) 0
                    {| colspanAttr := Some 2; rowIndex := 1 |}
                    (newPlugin (HCObject (Some [5]))))).
    vm_compute. reflexivity.
  - apply (proj2 (click_raises cascadeHot
                    {| isCollapsibleIndicator := true; hasExpandedClass := false;
                       hasCollapsedClass := true |} (-2) 0 topCell
                    (newPlugin HCMissing))); reflexivity.
Defined.

(** X10: after a click that went through the collapse branch, the
    indicator drawn for the clicked header cell is the collapsed one,
    and after a click that went through the expand branch it is the
    expanded one -- also when the handler has raised -- provided the
    row of the click is the row [generateIndicator] computes for the
    cell. *)
Theorem indicator_follows_click (hot : Hot) (row col : Z) (TD : HeaderCell)
  (p p1 : Plugin) :
  row = -1 * theadRows hot + rowIndex TD ->
  (endsWith (collapseSection hot row col TD p) p1 ->
   generateIndicator hot col TD p1 = IndicatorCollapsed)
  /\ (endsWith (expandSection hot row col TD p) p1 ->
      generateIndicator hot col TD p1 = IndicatorExpanded).
Proof.
  intros Hrow.
  assert (forall state action p0,
             endsWith (markThenToggle hot state action row col TD p0) p1 ->
             slot (collapsedSections p1) row col = Some (stateValue state)) as Hslot.
  { intros state action p0. unfold markThenToggle.
    destruct (markSectionAs hot state row col true (collapsedSections p0))
      as [cs|cs|] eqn:Hmark; [| |by intros [[=]|[=]]].
    - intros Hend. apply toggle_store in Hend. rewrite Hend. simpl.
      apply holds_slot, (markedSections_self hot row col cs state true
                           (collapsedSections p0)). by left.
    - intros [[=]|[= <-]]. simpl.
      apply holds_slot, (markedSections_self hot row col cs state true
                           (collapsedSections p0)). by right. }
  unfold generateIndicator. rewrite <- Hrow, isCollapsed_slot.
  split; intros Hend; apply Hslot in Hend; by rewrite Hend.
Qed.

Lemma indicator_follows_click_witness :
  generateIndicator cascadeHot 0 topCell
    {| collapsedSections :=
         <[ -2 := {[ 0 := JBool true ]} ]> {[ -1 := {[ 2 := JBool true ]} ]};
       hiddenColumns := HCObject (Some [1; 2; 3]) |}
  = IndicatorCollapsed.
Proof.
  apply (proj1 (indicator_follows_click cascadeHot (-2) 0 topCell
                  (newPlugin (HCObject (Some []))) _ eq_refl)).
  left. vm_compute. reflexivity.
Defined.

(** X11: [toggleCollapsedSection] raises exactly when the hidden-column
    setting is absent or, for ['collapse'] only, when the nested-headers
    colspan setting is absent -- never because of what the colspan table
    or the header cell holds -- and when it raises it has changed
    nothing; ['expand'] does not consult the nested headers at all. *)
Theorem toggle_raises_iff (hot : Hot) (row col : Z) (TD : HeaderCell)
  (action : ToggleAction) (p : Plugin) :
  (forall p', toggleCollapsedSection hot row col TD action p = Thrown p' <->
              p' = p
              /\ (hiddenColumns p = HCMissing
                  \/ (action = collapse /\ colspanSettings hot = None)))
  /\ toggleCollapsedSection hot row col TD action p <> OutOfFuel.
Proof.
  unfold toggleCollapsedSection, getChildHeaders. split.
  - intros p'.
    destruct (hiddenColumns p) as [| |columns];
      [split; [intros [= <-]; auto | by intros [-> _]]| |];
      (destruct action;
       [destruct (colspanSettings hot) as [t|];
          [destruct (colspanAttr TD) as [c|]|]|]);
      (split; [try done; intros [= <-]; auto | intros [-> [H|[H1 H2]]]; done]).
  - destruct (hiddenColumns p) as [| |columns]; [done| |];
      (destruct action;
       [destruct (colspanSettings hot) as [t|];
          [destruct (colspanAttr TD) as [c|]|]|]); done.
Qed.

Lemma toggle_raises_iff_witness :
  toggleCollapsedSection topOnlyHot (-2) 0 topCell collapse (newPlugin HCMissing)
  = Thrown (newPlugin HCMissing).
Proof.
  apply (proj1 (toggle_raises_iff topOnlyHot (-2) 0 topCell collapse
                  (newPlugin HCMissing))).
  split; [reflexivity | by left].
Defined.
